(** * rfmix: the probability codec (rfmix.h) and option validation (rfmix.cpp)

    A shallow embedding of the two source files.

    - [rfmix.cpp]: the option record, [init_options], [verify_options] and
      [main].  C [int] is [Z] (the code only compares these fields, it never
      does arithmetic on them), C [double] is a binary64 primitive float
      ([float]), [char *] is [string].  Output on stderr, [srand], the calls
      made by [main] and [exit] are recorded as a trace of events.  What the
      two files use but do not define ([N_RF_BOOTSTRAP], libc's [strtod],
      [cmdline_getoptions]) is a variable of the sections below.
    - [rfmix.h]: the log-odds codec [DF8]/[ef8] and [DF16]/[ef16].  These need
      [log] and [exp], so there a [double] is a real number extended with
      the IEEE-754 infinities and NaN ([double]), with overflow and
      underflow but without the rounding of results that are in range. *)

From Stdlib Require Import ZArith List String Ascii Bool Lia.
From Stdlib Require Import Floats Uint63.
From Stdlib Require Import Reals Lra.
Import ListNotations.

#[local] Set Warnings "-inexact-float".
Local Open Scope Z_scope.

(* ================================================================== *)
(** * Part I: definitions                                              *)
(* ================================================================== *)

(** ** C integers and conversions *)

Definition INT_MIN : Z := -2147483648.
Definition INT_MAX : Z := 2147483647.

Definition in_int (z : Z) : bool := (INT_MIN <=? z) && (z <=? INT_MAX).

(** Conversion of a wider integer to [int] (here: [time_t] to [int]); the
    usual two's complement wrap-around. *)
Definition wrap_int (z : Z) : Z := (z + 2147483648) mod 4294967296 - 2147483648.

(** The integral part (toward zero) of a binary64 value; [None] for the
    infinities and NaN. *)
Definition trunc_float (f : float) : option Z :=
  match Prim2SF f with
  | S754_zero _ => Some 0
  | S754_finite s m e =>
      let a := Z.shiftl (Z.pos m) e in
      Some (if s then - a else a)
  | S754_infinity _ => None
  | S754_nan => None
  end.

(** [(int) f] for a double [f].  When the integral part cannot be represented
    in an [int] the C conversion has no defined result: [None]. *)
Definition int_of_float (f : float) : option Z :=
  match trunc_float f with
  | Some z => if in_int z then Some z else None
  | None => None
  end.

(** A constant double stored into an [int] field ([rf_window_size = 0.2]);
    only used on constants whose integral part is in range. *)
Definition int_const (f : float) : Z :=
  match int_of_float f with Some z => z | None => 0 end.

(** ** Strings *)

Definition nl : string := String (ascii_of_nat 10) EmptyString.

Fixpoint mem_ascii (c : ascii) (s : string) : bool :=
  match s with
  | EmptyString => false
  | String d r => Ascii.eqb c d || mem_ascii c r
  end.

(** The token of [s] up to the first character of [delim], and what follows
    that character ([None] when no delimiter occurs). *)
Fixpoint split_token (s delim : string) : string * option string :=
  match s with
  | EmptyString => (EmptyString, None)
  | String c r =>
      if mem_ascii c delim then (EmptyString, Some r)
      else let (tok, rest) := split_token r delim in (String c tok, rest)
  end.

(** [strsep(&stringp, delim)]: returns the token and the updated [*stringp];
    a [NULL] pointer is [None]. *)
Definition strsep (stringp : option string) (delim : string)
  : option string * option string :=
  match stringp with
  | None => (None, None)
  | Some s => let (tok, rest) := split_token s delim in (Some tok, rest)
  end.

(** ** rfmix_opts_t

    Fields and types as in rfmix.h; the fields rfmix.cpp uses that the header
    does not declare ([bootstrap_mode], [em_iterations], [minimum_snps],
    [analyze_str], [analyze_range]) have the types their uses give them.
    [random_seed] and [analyze_range] are assigned from converted doubles,
    so they hold [option Z]. *)
Record rfmix_opts_t : Type := mk_opts {
  qvcf_fname : string;
  rvcf_fname : string;
  genetic_fname : string;
  class_fname : string;
  output_basename : string;
  maximum_missing_data_freq : float;
  n_generations : Z;
  rf_window_size : Z;
  crf_spacing : Z;
  generations : Z;
  n_trees : Z;
  reanalyze_reference : Z;
  bootstrap_mode : Z;
  em_iterations : Z;
  minimum_snps : Z;
  analyze_str : string;
  analyze_range : option Z * option Z;
  n_threads : Z;
  chromosome : string;
  random_seed_str : string;
  random_seed : option Z
}.

Definition set_analyze_range (o : rfmix_opts_t) (r : option Z * option Z) :=
  mk_opts (qvcf_fname o) (rvcf_fname o) (genetic_fname o) (class_fname o)
    (output_basename o) (maximum_missing_data_freq o) (n_generations o)
    (rf_window_size o) (crf_spacing o) (generations o) (n_trees o)
    (reanalyze_reference o) (bootstrap_mode o) (em_iterations o)
    (minimum_snps o) (analyze_str o) r (n_threads o) (chromosome o)
    (random_seed_str o) (random_seed o).

Definition set_n_threads (o : rfmix_opts_t) (n : Z) :=
  mk_opts (qvcf_fname o) (rvcf_fname o) (genetic_fname o) (class_fname o)
    (output_basename o) (maximum_missing_data_freq o) (n_generations o)
    (rf_window_size o) (crf_spacing o) (generations o) (n_trees o)
    (reanalyze_reference o) (bootstrap_mode o) (em_iterations o)
    (minimum_snps o) (analyze_str o) (analyze_range o) n (chromosome o)
    (random_seed_str o) (random_seed o).

Definition set_random_seed (o : rfmix_opts_t) (s : option Z) :=
  mk_opts (qvcf_fname o) (rvcf_fname o) (genetic_fname o) (class_fname o)
    (output_basename o) (maximum_missing_data_freq o) (n_generations o)
    (rf_window_size o) (crf_spacing o) (generations o) (n_trees o)
    (reanalyze_reference o) (bootstrap_mode o) (em_iterations o)
    (minimum_snps o) (analyze_str o) (analyze_range o) (n_threads o)
    (chromosome o) (random_seed_str o) s.

Definition set_n_trees (o : rfmix_opts_t) (n : Z) :=
  mk_opts (qvcf_fname o) (rvcf_fname o) (genetic_fname o) (class_fname o)
    (output_basename o) (maximum_missing_data_freq o) (n_generations o)
    (rf_window_size o) (crf_spacing o) (generations o) n
    (reanalyze_reference o) (bootstrap_mode o) (em_iterations o)
    (minimum_snps o) (analyze_str o) (analyze_range o) (n_threads o)
    (chromosome o) (random_seed_str o) (random_seed o).

(** [init_options]; [nprocs] is what [sysconf(_SC_NPROCESSORS_CONF)] returns.
    The fields it does not assign keep the zero of a global object. *)
Definition init_options (nprocs : Z) : rfmix_opts_t :=
  {| qvcf_fname := "";
     rvcf_fname := "";
     genetic_fname := "";
     class_fname := "";
     output_basename := "";
     maximum_missing_data_freq := 0.05%float;
     n_generations := 8;
     rf_window_size := int_const 0.2%float;
     crf_spacing := int_const 0.1%float;
     generations := 0;
     n_trees := 100;
     reanalyze_reference := 0;
     bootstrap_mode := 1;
     em_iterations := 0;
     minimum_snps := 10;
     analyze_str := "";
     analyze_range := (Some INT_MIN, Some INT_MAX);
     n_threads := nprocs;
     chromosome := "";
     random_seed_str := "0xDEADBEEF";
     random_seed := Some 0 |}.

(** ** Events of a run *)

Inductive stage : Type :=
  | load_input | random_forest | crf | msp_output | fb_output
  | fb_stay_in_state_output | free_input.

Inductive event : Type :=
  | Eprint (msg : string)              (* fprintf(stderr, msg) *)
  | Enotice (lo hi : option Z)         (* the NOTICE line and its two %d *)
  | Esrand (seed : option Z)           (* srand(seed) *)
  | Ecall (f : stage).

(** The diagnostics of [verify_options]. *)
Definition msg_qvcf : string := nl ++ "Specify query/admixed VCF input file with -f option".
Definition msg_rvcf : string := nl ++ "Specify reference VCF input file with -r option".
Definition msg_genetic : string := nl ++ "Specify genetic map file with -g option".
Definition msg_class : string :=
  nl ++ "Specify reference sample subpopulation mapping with -m option".
Definition msg_output : string :=
  nl ++ "Specify output files basename (prefix) with -o option".
Definition msg_missing : string := nl ++ "Range for --max-missing option is 0.0 to 1.0".
Definition msg_window : string := nl ++ "Random Forest window size must be greater than 0".
Definition msg_spacing : string := nl ++ "Conditional random field size must be larger than 0".
Definition msg_generations : string :=
  nl ++ "Number of generations since putative admixture must be larger than 0.".
Definition msg_trees : string := nl ++ "Number of random forest trees must be at least 10".
Definition msg_bootstrap : string :=
  nl ++ "Bootstrap mode (-b) out of valid range - see manual".
Definition msg_range : string :=
  "Invalid physical range to analyze (--analyze-range)" ++ nl.
Definition msg_chromosome : string :=
  nl ++ "Specify VCF chromosome to analyze with -c option".
Definition msg_correct : string :=
  nl ++ nl ++ "Correct command line errors to run rfmix. Run program with no options for help" ++ nl.

(** The local state of [verify_options]: the options being checked, the
    [stop] flag and what has been emitted so far. *)
Record vstate : Type := mk_vstate {
  vs_opts : rfmix_opts_t;
  vs_stop : Z;
  vs_trace : list event
}.

(** Statements of the body of [verify_options] are state transformers. *)
Definition stmt : Type := vstate -> vstate.

Definition seq (a b : stmt) : stmt := fun s => b (a s).
Notation "a ;; b" := (seq a b) (at level 90, right associativity).

(** [if (c) { body }] and [if (c) { a } else { b }], the condition reading
    the global [rfmix_opts]. *)
Definition when (c : rfmix_opts_t -> bool) (body : stmt) : stmt :=
  fun s => if c (vs_opts s) then body s else s.

Definition if_else (c : rfmix_opts_t -> bool) (a b : stmt) : stmt :=
  fun s => if c (vs_opts s) then a s else b s.

Definition emit (e : rfmix_opts_t -> event) : stmt :=
  fun s => mk_vstate (vs_opts s) (vs_stop s) (vs_trace s ++ [e (vs_opts s)]).

Definition fprintf_stderr (msg : string) : stmt := emit (fun _ => Eprint msg).

Definition set_stop : stmt :=
  fun s => mk_vstate (vs_opts s) 1 (vs_trace s).

Definition assign (f : rfmix_opts_t -> rfmix_opts_t) : stmt :=
  fun s => mk_vstate (f (vs_opts s)) (vs_stop s) (vs_trace s).

(** [fprintf(stderr, msg); stop = 1;] *)
Definition complain (msg : string) : stmt := fprintf_stderr msg ;; set_stop.

(** How a function that may call [exit] ends. *)
Inductive outcome (A : Type) : Type :=
  | Returned (a : A) (tr : list event)
  | Exited (status : Z) (tr : list event).
Arguments Returned {A} a tr.
Arguments Exited {A} status tr.

Definition out_trace {A} (r : outcome A) : list event :=
  match r with Returned _ tr => tr | Exited _ tr => tr end.

Definition has_exited {A} (r : outcome A) : bool :=
  match r with Returned _ _ => false | Exited _ _ => true end.

Section Options.

(** The number of bootstrap modes, from random-forest.h. *)
Variable N_RF_BOOTSTRAP : Z.

(** libc's [strtod(s, 0)]; [atof(s)] is the same function. *)
Variable strtod : string -> float.
Definition atof (s : string) : float := strtod s.

(** The block run when [analyze_str] is not empty. *)
Definition parse_analyze_range : stmt := fun s =>
  let p := Some (analyze_str (vs_opts s)) in       (* strdup *)
  let (start, end_) := strsep p "-" in
  match start, end_ with
  | Some st, Some en =>
      (assign (fun o => set_analyze_range o
                 (int_of_float (atof st * 1e6)%float,
                  int_of_float (atof en * 1e6)%float)) ;;
       emit (fun o => Enotice (fst (analyze_range o)) (snd (analyze_range o)))) s
  | _, _ => complain msg_range s
  end.

(** The body of [verify_options] up to the final test of [stop]; [now] is
    what [time(NULL)] returns.  Where the code compares an [int] field with
    a double constant ([rf_window_size <= 0.], [n_generations < 0.]) the
    field is converted exactly, so the test is the one on integers. *)
Definition verify_checks (now : Z) : stmt :=
  when (fun o => qvcf_fname o =? "")%string (complain msg_qvcf) ;;
  when (fun o => rvcf_fname o =? "")%string (complain msg_rvcf) ;;
  when (fun o => genetic_fname o =? "")%string (complain msg_genetic) ;;
  when (fun o => class_fname o =? "")%string (complain msg_class) ;;
  when (fun o => output_basename o =? "")%string (complain msg_output) ;;
  when (fun o => (maximum_missing_data_freq o <? 0.0)%float
                 || (1.0 <? maximum_missing_data_freq o)%float)
       (complain msg_missing) ;;
  when (fun o => rf_window_size o <=? 0) (complain msg_window) ;;
  when (fun o => crf_spacing o <=? 0) (complain msg_spacing) ;;
  when (fun o => n_generations o <? 0) (complain msg_generations) ;;
  when (fun o => n_trees o <? 10) (complain msg_trees) ;;
  when (fun o => (bootstrap_mode o <? 0) || (N_RF_BOOTSTRAP <=? bootstrap_mode o))
       (complain msg_bootstrap) ;;
  when (fun o => negb (analyze_str o =? "")%string) parse_analyze_range ;;
  when (fun o => n_threads o <? 1) (assign (fun o => set_n_threads o 1)) ;;
  when (fun o => chromosome o =? "")%string (complain msg_chromosome) ;;
  if_else (fun o => random_seed_str o =? "clock")%string
    (assign (fun o => set_random_seed o (Some (wrap_int now))))
    (assign (fun o => set_random_seed o
                        (int_of_float (strtod (random_seed_str o))))) ;;
  emit (fun o => Esrand (random_seed o)).

Definition verify_options (o : rfmix_opts_t) (now : Z) : outcome rfmix_opts_t :=
  let s := verify_checks now (mk_vstate o 0 []) in
  if negb (vs_stop s =? 0)
  then Exited (-1) (vs_trace s ++ [Eprint msg_correct])
  else Returned (vs_opts s) (vs_trace s).

(** [cmdline_getoptions] of cmdline-utils: fills the record from [argv]. *)
Variable cmdline_getoptions : list string -> rfmix_opts_t -> rfmix_opts_t.

Definition main (argv : list string) (nprocs now : Z) : outcome Z :=
  let o := init_options nprocs in
  let o := cmdline_getoptions argv o in
  match verify_options o now with
  | Exited st tr => Exited st tr
  | Returned _ tr =>
      Returned 0 (tr ++ [Eprint nl; Ecall load_input; Ecall random_forest;
                         Ecall crf; Ecall msp_output; Ecall fb_output;
                         Ecall fb_stay_in_state_output; Ecall free_input])
  end.

End Options.

(** ** Vocabulary for the statements about [verify_options] *)

(** [analyze_str] is given but has no [-] separating a start from an end:
    the one malformation the code looks for. *)
Definition range_malformed (o : rfmix_opts_t) : bool :=
  negb (analyze_str o =? "")%string
  && match snd (strsep (Some (analyze_str o)) "-") with
     | None => true
     | Some _ => false
     end.

Definition diag (c : bool) (msg : string) : list event :=
  if c then [Eprint msg] else [].

Section Vocabulary.

Variable N_RF_BOOTSTRAP : Z.
Variable strtod : string -> float.

Definition missing_out_of_range (o : rfmix_opts_t) : bool :=
  (maximum_missing_data_freq o <? 0.0)%float
  || (1.0 <? maximum_missing_data_freq o)%float.

Definition bootstrap_out_of_range (o : rfmix_opts_t) : bool :=
  (bootstrap_mode o <? 0) || (N_RF_BOOTSTRAP <=? bootstrap_mode o).

(** Some check of [verify_options] fails. *)
Definition violated (o : rfmix_opts_t) : bool :=
  (qvcf_fname o =? "")%string || (rvcf_fname o =? "")%string
  || (genetic_fname o =? "")%string || (class_fname o =? "")%string
  || (output_basename o =? "")%string || missing_out_of_range o
  || (rf_window_size o <=? 0) || (crf_spacing o <=? 0)
  || (n_generations o <? 0) || (n_trees o <? 10)
  || bootstrap_out_of_range o || range_malformed o
  || (chromosome o =? "")%string.

(** The checks with their diagnostics, in the order of the code. *)
Definition checks (o : rfmix_opts_t) : list (bool * string) :=
  [ ((qvcf_fname o =? "")%string, msg_qvcf);
    ((rvcf_fname o =? "")%string, msg_rvcf);
    ((genetic_fname o =? "")%string, msg_genetic);
    ((class_fname o =? "")%string, msg_class);
    ((output_basename o =? "")%string, msg_output);
    (missing_out_of_range o, msg_missing);
    (rf_window_size o <=? 0, msg_window);
    (crf_spacing o <=? 0, msg_spacing);
    (n_generations o <? 0, msg_generations);
    (n_trees o <? 10, msg_trees);
    (bootstrap_out_of_range o, msg_bootstrap);
    (range_malformed o, msg_range);
    ((chromosome o =? "")%string, msg_chromosome) ].

(** What the [analyze_str] block does to the options and emits. *)
Definition range_opts (o : rfmix_opts_t) : rfmix_opts_t :=
  if negb (analyze_str o =? "")%string then
    match strsep (Some (analyze_str o)) "-" with
    | (Some st, Some en) =>
        set_analyze_range o (int_of_float (strtod st * 1e6)%float,
                             int_of_float (strtod en * 1e6)%float)
    | _ => o
    end
  else o.

Definition range_events (o : rfmix_opts_t) : list event :=
  if negb (analyze_str o =? "")%string then
    match strsep (Some (analyze_str o)) "-" with
    | (Some st, Some en) =>
        [Enotice (int_of_float (strtod st * 1e6)%float)
                 (int_of_float (strtod en * 1e6)%float)]
    | _ => [Eprint msg_range]
    end
  else [].

(** The seed [verify_options] derives. *)
Definition derived_seed (o : rfmix_opts_t) (now : Z) : option Z :=
  if (random_seed_str o =? "clock")%string then Some (wrap_int now)
  else int_of_float (strtod (random_seed_str o)).

Definition threads_opts (o : rfmix_opts_t) : rfmix_opts_t :=
  if n_threads o <? 1 then set_n_threads o 1 else o.

Definition final_opts (o : rfmix_opts_t) (now : Z) : rfmix_opts_t :=
  set_random_seed (threads_opts (range_opts o)) (derived_seed o now).

Definition final_trace (o : rfmix_opts_t) (now : Z) : list event :=
  diag (qvcf_fname o =? "")%string msg_qvcf
  ++ diag (rvcf_fname o =? "")%string msg_rvcf
  ++ diag (genetic_fname o =? "")%string msg_genetic
  ++ diag (class_fname o =? "")%string msg_class
  ++ diag (output_basename o =? "")%string msg_output
  ++ diag (missing_out_of_range o) msg_missing
  ++ diag (rf_window_size o <=? 0) msg_window
  ++ diag (crf_spacing o <=? 0) msg_spacing
  ++ diag (n_generations o <? 0) msg_generations
  ++ diag (n_trees o <? 10) msg_trees
  ++ diag (bootstrap_out_of_range o) msg_bootstrap
  ++ range_events o
  ++ diag (chromosome o =? "")%string msg_chromosome
  ++ [Esrand (derived_seed o now)].

(** The configuration errors, as propositions on the parsed options. *)
Definition config_error (o : rfmix_opts_t) : Prop :=
  qvcf_fname o = ""%string \/ rvcf_fname o = ""%string
  \/ genetic_fname o = ""%string \/ class_fname o = ""%string
  \/ output_basename o = ""%string \/ chromosome o = ""%string
  \/ (maximum_missing_data_freq o <? 0.0)%float = true
  \/ (1.0 <? maximum_missing_data_freq o)%float = true
  \/ rf_window_size o <= 0 \/ crf_spacing o <= 0
  \/ n_generations o < 0 \/ n_trees o < 10
  \/ bootstrap_mode o < 0 \/ N_RF_BOOTSTRAP <= bootstrap_mode o
  \/ range_malformed o = true.

(** The state in which the body of [verify_options] starts. *)
Definition entry (o : rfmix_opts_t) : vstate := mk_vstate o 0 [].

End Vocabulary.

(** What [strtod] does on a string of decimal digits (it stops at the first
    other character); enough to run the code on examples. *)
Fixpoint strtod_digits_from (acc : float) (s : string) : float :=
  match s with
  | EmptyString => acc
  | String c r =>
      let d := (Z.of_nat (nat_of_ascii c) - 48)%Z in
      if (0 <=? d) && (d <=? 9)
      then strtod_digits_from (acc * 10 + of_uint63 (Uint63.of_Z d))%float r
      else acc
  end.

Definition strtod_digits (s : string) : float := strtod_digits_from 0%float s.

(** A configuration that satisfies every check when there are at least two
    bootstrap modes. *)
Definition sample_opts : rfmix_opts_t :=
  mk_opts "query.vcf" "reference.vcf" "genetic.map" "samples.map" "out"
    0.05%float 8 5 1 0 100 0 1 0 10 "" (Some INT_MIN, Some INT_MAX) 4 "chr1"
    "1234" (Some 0).

Definition set_bootstrap_mode (o : rfmix_opts_t) (b : Z) :=
  mk_opts (qvcf_fname o) (rvcf_fname o) (genetic_fname o) (class_fname o)
    (output_basename o) (maximum_missing_data_freq o) (n_generations o)
    (rf_window_size o) (crf_spacing o) (generations o) (n_trees o)
    (reanalyze_reference o) b (em_iterations o)
    (minimum_snps o) (analyze_str o) (analyze_range o) (n_threads o)
    (chromosome o) (random_seed_str o) (random_seed o).

Definition set_random_seed_str (o : rfmix_opts_t) (s : string) :=
  mk_opts (qvcf_fname o) (rvcf_fname o) (genetic_fname o) (class_fname o)
    (output_basename o) (maximum_missing_data_freq o) (n_generations o)
    (rf_window_size o) (crf_spacing o) (generations o) (n_trees o)
    (reanalyze_reference o) (bootstrap_mode o) (em_iterations o)
    (minimum_snps o) (analyze_str o) (analyze_range o) (n_threads o)
    (chromosome o) s (random_seed o).

(** The options of a run that names every required input and leaves the
    tunable parameters at their defaults. *)
Definition supplied_defaults (nprocs : Z) : rfmix_opts_t :=
  let o := init_options nprocs in
  mk_opts "query.vcf" "reference.vcf" "genetic.map" "samples.map" "out"
    (maximum_missing_data_freq o) (n_generations o)
    (rf_window_size o) (crf_spacing o) (generations o) (n_trees o)
    (reanalyze_reference o) (bootstrap_mode o) (em_iterations o)
    (minimum_snps o) (analyze_str o) (analyze_range o) (n_threads o) "chr1"
    (random_seed_str o) (random_seed o).

(** ** rfmix.h: the log-odds codec

    The doubles of the codec: a real number, or one of the IEEE-754 special
    values.  A finite result is the exact real when that lies in the range
    of binary64; it is an infinity when its magnitude reaches the overflow
    threshold and zero when its magnitude is at most half the least
    subnormal ([fin] below).  Rounding inside the range is not modelled and
    the sign of a zero is not kept, so the statements about the codec are
    made on the normal doubles and with the margins that rounding needs.
    The special values follow IEEE-754 and Annex F of the C standard
    ([x / 0], [log(0)], [log(inf)], [exp(-inf)], ...). *)
Inductive double : Type :=
  | Fin (r : R)
  | PInf
  | MInf
  | NaN.

Definition Rsign (r : R) : comparison :=
  match total_order_T r 0 with
  | inleft (left _) => Lt
  | inleft (right _) => Eq
  | inright _ => Gt
  end.

(** The infinity of a sign; NaN for the sign of zero ([0 * inf], [0 / 0]). *)
Definition signed_inf (s : comparison) : double :=
  match s with Gt => PInf | Lt => MInf | Eq => NaN end.

(** The least magnitude that rounds to an infinity, [2^1024 - 2^970], and
    the greatest that rounds to zero, [2^-1075]. *)
Definition DBL_OVER : R := IZR (2 ^ 1024 - 2 ^ 970).
Definition DBL_UNDER : R := (/ IZR (2 ^ 1075))%R.

(** A finite result [r] as a double: overflow and underflow. *)
Definition fin (r : R) : double :=
  if Rle_dec DBL_OVER (Rabs r) then signed_inf (Rsign r)
  else if Rle_dec (Rabs r) DBL_UNDER then Fin 0
  else Fin r.

Definition dneg (a : double) : double :=
  match a with
  | Fin r => Fin (- r)
  | PInf => MInf
  | MInf => PInf
  | NaN => NaN
  end.

Definition dadd (a b : double) : double :=
  match a, b with
  | Fin x, Fin y => fin (x + y)
  | NaN, _ => NaN
  | _, NaN => NaN
  | PInf, MInf => NaN
  | MInf, PInf => NaN
  | PInf, _ => PInf
  | _, PInf => PInf
  | MInf, _ => MInf
  | _, MInf => MInf
  end.

Definition dsub (a b : double) : double := dadd a (dneg b).

Definition dmul (a b : double) : double :=
  match a, b with
  | Fin x, Fin y => fin (x * y)
  | NaN, _ => NaN
  | _, NaN => NaN
  | Fin x, PInf => signed_inf (Rsign x)
  | PInf, Fin x => signed_inf (Rsign x)
  | Fin x, MInf => signed_inf (CompOpp (Rsign x))
  | MInf, Fin x => signed_inf (CompOpp (Rsign x))
  | PInf, PInf => PInf
  | MInf, MInf => PInf
  | PInf, MInf => MInf
  | MInf, PInf => MInf
  end.

Definition ddiv (a b : double) : double :=
  match a, b with
  | Fin x, Fin y =>
      match Rsign y with
      | Eq => signed_inf (Rsign x)
      | _ => fin (x / y)
      end
  | NaN, _ => NaN
  | _, NaN => NaN
  | Fin _, _ => Fin 0
  | PInf, Fin y => match Rsign y with Lt => MInf | _ => PInf end
  | MInf, Fin y => match Rsign y with Lt => PInf | _ => MInf end
  | _, _ => NaN
  end.

(** libm's [log] and [exp].  The logarithm of a finite positive double is
    always in range. *)
Definition dlog (a : double) : double :=
  match a with
  | Fin x =>
      match Rsign x with
      | Gt => Fin (ln x)
      | Eq => MInf
      | Lt => NaN
      end
  | PInf => PInf
  | MInf => NaN
  | NaN => NaN
  end.

Definition dexp (a : double) : double :=
  match a with
  | Fin x => fin (exp x)
  | PInf => PInf
  | MInf => Fin 0
  | NaN => NaN
  end.

(** [(double) x] for an integer [x]. *)
Definition double_of_int (x : Z) : double := Fin (IZR x).

(** The integral part of a real, toward zero. *)
Definition Ztrunc (r : R) : Z :=
  if Rlt_dec r 0 then Zceil r else Zfloor r.

(** [(int) a]: the integral part when it is an [int]; the conversion of
    anything else (an infinity, NaN, a value too large) is undefined. *)
Definition int_of_double (a : double) : option Z :=
  match a with
  | Fin r => if in_int (Ztrunc r) then Some (Ztrunc r) else None
  | _ => None
  end.

(** Conversion of an [int] to [int8_t] and to [int16_t]. *)
Definition to_int8 (z : Z) : Z := (z + 128) mod 256 - 128.
Definition to_int16 (z : Z) : Z := (z + 32768) mod 65536 - 32768.

Definition DF8 (x : Z) : double :=
  ddiv (Fin 1) (dadd (Fin 1) (dexp (ddiv (double_of_int x) (Fin (-12))))).

Definition EF8 (p : double) : option Z :=
  int_of_double (dmul (Fin (-12)) (dlog (ddiv (dsub (Fin 1) p) p))).

Definition ef8 (p : double) : option Z :=
  match int_of_double (dmul (Fin (-12)) (dlog (ddiv (dsub (Fin 1) p) p))) with
  | None => None
  | Some tmp =>
      let tmp := if tmp <? -127 then -127 else tmp in
      let tmp := if 127 <? tmp then 127 else tmp in
      Some (to_int8 tmp)
  end.

Definition DF16 (x : Z) : double :=
  ddiv (Fin 1) (dadd (Fin 1) (dexp (ddiv (double_of_int x) (Fin (-1024))))).

Definition EF16 (p : double) : option Z :=
  int_of_double (dmul (double_of_int (-1024)) (dlog (ddiv (dsub (Fin 1) p) p))).

Definition ef16 (p : double) : option Z :=
  match int_of_double (dmul (Fin (-1024)) (dlog (ddiv (dsub (Fin 1) p) p))) with
  | None => None
  | Some tmp =>
      let tmp := if tmp <? -32767 then -32767 else tmp in
      let tmp := if 32767 <? tmp then 32767 else tmp in
      Some (to_int16 tmp)
  end.

(** ** Vocabulary for the statements about the codec *)

(** The normal doubles strictly between 0 and 1 lie between the least
    positive normal double, 2^-1022, and the greatest double below 1,
    1 - 2^-53. *)
Definition open_unit (p : R) : Prop :=
  (/ 2 ^ 1022 <= p <= 1 - / 2 ^ 53)%R.


(** The error of encoding [p] and decoding the code, when both steps have
    a finite result. *)
Definition roundtrip8 (p : R) : option R :=
  match ef8 (Fin p) with
  | Some c => match DF8 c with Fin v => Some (Rabs (v - p)) | _ => None end
  | None => None
  end.

Definition roundtrip16 (p : R) : option R :=
  match ef16 (Fin p) with
  | Some c => match DF16 c with Fin v => Some (Rabs (v - p)) | _ => None end
  | None => None
  end.

(** The logistic function and the log-odds, on the reals. *)
Definition logistic (t : R) : R := (1 / (1 + exp (- t)))%R.
Definition logit (p : R) : R := (- ln ((1 - p) / p))%R.

(** The derivative of the logistic function. *)
Definition logistic' (t : R) : R := (exp (- t) / Rsqr (1 + exp (- t)))%R.

(** ** Rational lower bounds on [exp], by repeated squaring

    [exp (n/d) >= (1 + n / (d 2^k)) ^ (2^k)], computed in fixed point with
    [M] fractional bits, every step rounded down. *)
Definition sq_down (M a : Z) : Z := (a * a) / 2 ^ M.

Fixpoint iter_sq_down (M : Z) (k : nat) (a : Z) : Z :=
  match k with
  | O => a
  | S k' => iter_sq_down M k' (sq_down M a)
  end.

Definition exp_seed (M : Z) (k : nat) (n d : Z) : Z :=
  2 ^ M + (n * 2 ^ M) / (d * 2 ^ Z.of_nat k).

Definition exp_low (M : Z) (k : nat) (n d : Z) : Z :=
  iter_sq_down M k (exp_seed M k n d).

(** [cn/cd <= exp (n/d)], checked on the fixed-point bound. *)
Definition exp_ge_check (M : Z) (k : nat) (cn cd n d : Z) : bool :=
  (0 <? d) && (0 <? cd) && (0 <=? M) && (0 <=? exp_seed M k n d)
  && (cn * 2 ^ M <=? cd * exp_low M k n d).

(** ** rfmix.h: flattened (window, subpopulation) indexing

    [IDX(w,s)] is [(w)*n_subpops + (s)] on [int]s; a product or sum that
    leaves the range of [int] has no defined value. *)
Definition int_mul (a b : Z) : option Z :=
  if in_int (a * b) then Some (a * b) else None.

Definition int_add (a b : Z) : option Z :=
  if in_int (a + b) then Some (a + b) else None.

Definition IDX (n_subpops w s : Z) : option Z :=
  match int_mul w n_subpops with
  | Some m => int_add m s
  | None => None
  end.

(** ** Further vocabulary: what a trace holds, and validated options *)

Fixpoint prints (tr : list event) : list string :=
  match tr with
  | [] => []
  | Eprint m :: r => m :: prints r
  | _ :: r => prints r
  end.

Fixpoint calls (tr : list event) : list stage :=
  match tr with
  | [] => []
  | Ecall f :: r => f :: calls r
  | _ :: r => calls r
  end.

Fixpoint srands (tr : list event) : list (option Z) :=
  match tr with
  | [] => []
  | Esrand sd :: r => sd :: srands r
  | _ :: r => srands r
  end.

(** The stages of [main] after validation, in the order of the code. *)
Definition stage_order : list stage :=
  [load_input; random_forest; crf; msp_output; fb_output;
   fb_stay_in_state_output; free_input].

(** What the stages after [verify_options] can rely on. *)
Definition validated (N_RF_BOOTSTRAP : Z) (o : rfmix_opts_t) : Prop :=
  qvcf_fname o <> ""%string /\ rvcf_fname o <> ""%string
  /\ genetic_fname o <> ""%string /\ class_fname o <> ""%string
  /\ output_basename o <> ""%string /\ chromosome o <> ""%string
  /\ (maximum_missing_data_freq o <? 0.0)%float = false
  /\ (1.0 <? maximum_missing_data_freq o)%float = false
  /\ 1 <= rf_window_size o /\ 1 <= crf_spacing o
  /\ 0 <= n_generations o /\ 10 <= n_trees o
  /\ 0 <= bootstrap_mode o < N_RF_BOOTSTRAP
  /\ 1 <= n_threads o
  /\ range_malformed o = false.

(** The options with three fields replaced: the only fields
    [verify_options] assigns. *)
Definition with_derived (o : rfmix_opts_t) (r : option Z * option Z)
  (n : Z) (sd : option Z) : rfmix_opts_t :=
  mk_opts (qvcf_fname o) (rvcf_fname o) (genetic_fname o) (class_fname o)
    (output_basename o) (maximum_missing_data_freq o) (n_generations o)
    (rf_window_size o) (crf_spacing o) (generations o) (n_trees o)
    (reanalyze_reference o) (bootstrap_mode o) (em_iterations o)
    (minimum_snps o) (analyze_str o) r n (chromosome o)
    (random_seed_str o) sd.

Definition set_analyze_str (o : rfmix_opts_t) (s : string) :=
  mk_opts (qvcf_fname o) (rvcf_fname o) (genetic_fname o) (class_fname o)
    (output_basename o) (maximum_missing_data_freq o) (n_generations o)
    (rf_window_size o) (crf_spacing o) (generations o) (n_trees o)
    (reanalyze_reference o) (bootstrap_mode o) (em_iterations o)
    (minimum_snps o) s (analyze_range o) (n_threads o)
    (chromosome o) (random_seed_str o) (random_seed o).

Definition set_max_missing (o : rfmix_opts_t) (f : float) :=
  mk_opts (qvcf_fname o) (rvcf_fname o) (genetic_fname o) (class_fname o)
    (output_basename o) f (n_generations o)
    (rf_window_size o) (crf_spacing o) (generations o) (n_trees o)
    (reanalyze_reference o) (bootstrap_mode o) (em_iterations o)
    (minimum_snps o) (analyze_str o) (analyze_range o) (n_threads o)
    (chromosome o) (random_seed_str o) (random_seed o).

(** The options with the four fields [verify_options] never reads set. *)
Definition set_unchecked (o : rfmix_opts_t) (g e m r : Z) :=
  mk_opts (qvcf_fname o) (rvcf_fname o) (genetic_fname o) (class_fname o)
    (output_basename o) (maximum_missing_data_freq o) (n_generations o)
    (rf_window_size o) (crf_spacing o) g (n_trees o)
    r (bootstrap_mode o) e
    m (analyze_str o) (analyze_range o) (n_threads o)
    (chromosome o) (random_seed_str o) (random_seed o).

(* ================================================================== *)
(** * Part II: properties                                              *)
(* ================================================================== *)

(** ** Conversions *)

Example int_const_window : int_const 0.2%float = 0.
Proof. vm_compute. reflexivity. Qed.

Example int_of_float_examples :
  int_of_float 3735928559%float = None
  /\ int_of_float 12345.75%float = Some 12345
  /\ int_of_float (-0.5)%float = Some 0
  /\ int_of_float (-7.5)%float = Some (-7)
  /\ int_of_float infinity = None.
Proof. vm_compute. repeat split; reflexivity. Qed.

Example strsep_examples :
  strsep (Some "1.5-2.5"%string) "-" = (Some "1.5"%string, Some "2.5"%string)
  /\ strsep (Some "12"%string) "-" = (Some "12"%string, None)
  /\ strsep (Some "a-b-c"%string) "-" = (Some "a"%string, Some "b-c"%string).
Proof. repeat split; reflexivity. Qed.

(** ** The statements of [verify_options], one by one *)

Lemma when_complain_eq c m o st tr :
  when c (complain m) (mk_vstate o st tr)
  = mk_vstate o (if c o then 1 else st) (tr ++ diag (c o) m).
Proof.
  unfold when, complain, seq, fprintf_stderr, emit, set_stop, diag; simpl.
  destruct (c o); simpl; [reflexivity | now rewrite app_nil_r].
Qed.

Lemma when_assign_eq c f o st tr :
  when c (assign f) (mk_vstate o st tr)
  = mk_vstate (if c o then f o else o) st tr.
Proof. unfold when, assign; simpl. destruct (c o); reflexivity. Qed.

Lemma if_else_assign_eq c f g o st tr :
  if_else c (assign f) (assign g) (mk_vstate o st tr)
  = mk_vstate (if c o then f o else g o) st tr.
Proof. unfold if_else, assign; simpl. destruct (c o); reflexivity. Qed.

Lemma emit_eq e o st tr :
  emit e (mk_vstate o st tr) = mk_vstate o st (tr ++ [e o]).
Proof. reflexivity. Qed.

Lemma raise_orb (b c : bool) :
  (if c then 1 else if b then 1 else 0) = if b || c then 1 else 0.
Proof. destruct b, c; reflexivity. Qed.

Section OptionsProps.

Variable N_RF_BOOTSTRAP : Z.
Variable strtod : string -> float.

Abbreviation verify_checks := (verify_checks N_RF_BOOTSTRAP strtod).
Abbreviation verify_options := (verify_options N_RF_BOOTSTRAP strtod).
Abbreviation violated := (violated N_RF_BOOTSTRAP).
Abbreviation checks := (checks N_RF_BOOTSTRAP).
Abbreviation final_trace := (final_trace N_RF_BOOTSTRAP strtod).
Abbreviation final_opts := (final_opts strtod).
Abbreviation bootstrap_out_of_range := (bootstrap_out_of_range N_RF_BOOTSTRAP).

Lemma when_range_eq o st tr :
  when (fun o => negb (analyze_str o =? "")%string)
       (parse_analyze_range strtod) (mk_vstate o st tr)
  = mk_vstate (range_opts strtod o)
              (if range_malformed o then 1 else st)
              (tr ++ range_events strtod o).
Proof.
  unfold when, parse_analyze_range, range_opts, range_malformed, range_events.
  cbn [vs_opts].
  destruct (negb (analyze_str o =? "")%string); cbn [andb].
  - unfold atof, strsep.
    destruct (split_token (analyze_str o) "-") as [tok [en|]]; cbn [snd];
      unfold complain, seq, fprintf_stderr, emit, set_stop, assign;
      reflexivity.
  - now rewrite app_nil_r.
Qed.

Lemma range_opts_fields o :
  let o' := range_opts strtod o in
  n_threads o' = n_threads o /\ chromosome o' = chromosome o
  /\ random_seed_str o' = random_seed_str o
  /\ bootstrap_mode o' = bootstrap_mode o /\ n_trees o' = n_trees o.
Proof.
  unfold range_opts.
  destruct (negb _); [|repeat split].
  unfold strsep.
  destruct (split_token _ _) as [? [?|]]; repeat split.
Qed.

Lemma when_threads_eq o st tr :
  when (fun o => n_threads o <? 1) (assign (fun o => set_n_threads o 1))
       (mk_vstate o st tr)
  = mk_vstate (threads_opts o) st tr.
Proof. apply when_assign_eq. Qed.

Lemma seed_step_eq now o st tr :
  if_else (fun o => random_seed_str o =? "clock")%string
    (assign (fun o => set_random_seed o (Some (wrap_int now))))
    (assign (fun o => set_random_seed o
                        (int_of_float (strtod (random_seed_str o)))))
    (mk_vstate o st tr)
  = mk_vstate (set_random_seed o (derived_seed strtod o now)) st tr.
Proof.
  rewrite if_else_assign_eq. unfold derived_seed.
  destruct (random_seed_str o =? "clock")%string; reflexivity.
Qed.

Lemma threads_opts_fields o :
  chromosome (threads_opts o) = chromosome o
  /\ random_seed_str (threads_opts o) = random_seed_str o
  /\ bootstrap_mode (threads_opts o) = bootstrap_mode o
  /\ n_trees (threads_opts o) = n_trees o
  /\ n_threads (threads_opts o) = Z.max 1 (n_threads o).
Proof.
  unfold threads_opts. destruct (Z.ltb_spec (n_threads o) 1);
    cbn [chromosome random_seed_str bootstrap_mode n_trees n_threads set_n_threads];
    repeat split; lia.
Qed.

(** The final state of the body of [verify_options], in closed form. *)
Lemma verify_checks_eq o now :
  verify_checks now (mk_vstate o 0 [])
  = mk_vstate (final_opts o now)
              (if violated o then 1 else 0)
              (final_trace o now).
Proof.
  unfold verify_checks, seq.
  rewrite !when_complain_eq, when_range_eq, when_threads_eq, when_complain_eq,
    seed_step_eq, emit_eq.
  destruct (range_opts_fields o) as (_ & Hc & Hs & _).
  destruct (threads_opts_fields (range_opts strtod o)) as (Hc' & Hs' & _).
  rewrite Hc', Hc.
  assert (Hsd : derived_seed strtod (threads_opts (range_opts strtod o)) now
                = derived_seed strtod o now)
    by (unfold derived_seed; now rewrite Hs', Hs).
  rewrite Hsd. cbn [random_seed set_random_seed].
  f_equal.
  - rewrite !raise_orb. reflexivity.
  - unfold final_trace. cbn [app]. rewrite <- !app_assoc. reflexivity.
Qed.

Lemma verify_options_eq o now :
  verify_options o now
  = if violated o
    then Exited (-1) (final_trace o now ++ [Eprint msg_correct])
    else Returned (final_opts o now) (final_trace o now).
Proof.
  unfold verify_options. rewrite verify_checks_eq. cbn [vs_stop vs_trace vs_opts].
  destruct (violated o); reflexivity.
Qed.

(** *** What the trace holds *)

Lemma in_diag e c m : In e (diag c m) <-> c = true /\ e = Eprint m.
Proof.
  unfold diag; destruct c; simpl; split.
  - intros [<-|[]]; auto.
  - intros [_ ->]; auto.
  - intros [].
  - intros [H _]; discriminate.
Qed.

Lemma in_range_events_print o m :
  In (Eprint m) (range_events strtod o)
  <-> range_malformed o = true /\ m = msg_range.
Proof.
  unfold range_events, range_malformed, strsep.
  destruct (negb (analyze_str o =? "")%string); cbn [andb].
  - destruct (split_token (analyze_str o) "-") as [tok [en|]]; cbn [snd]; simpl.
    + split; [intros [H|[]]; discriminate | intros [H _]; discriminate].
    + split; [intros [H|[]]; inversion H; auto | intros [_ ->]; auto].
  - simpl; split; [intros [] | intros [H _]; discriminate].
Qed.

Lemma in_final_trace_print o now m :
  In (Eprint m) (final_trace o now) <-> In (true, m) (checks o).
Proof.
  unfold final_trace, checks.
  rewrite !in_app_iff, !in_diag, in_range_events_print. simpl In.
  split.
  - intros H.
    repeat (destruct H as [[Hc He]|H];
            [first [injection He as -> | subst m]; rewrite Hc; tauto|]).
    destruct H as [H|[]]; discriminate.
  - intros H.
    repeat (destruct H as [H|H];
            [inversion H; subst; tauto|]).
    destruct H.
Qed.

Lemma no_call_in_final_trace o now f : ~ In (Ecall f) (final_trace o now).
Proof.
  unfold final_trace. rewrite !in_app_iff, !in_diag.
  intros H.
  repeat (destruct H as [[_ He]|H]; [discriminate|]).
  destruct H as [H|H].
  - unfold range_events, strsep in H.
    destruct (negb _); [|destruct H].
    destruct (split_token _ _) as [? [?|]]; destruct H as [H|[]]; discriminate.
  - destruct H as [[_ He]|H]; [discriminate|].
    destruct H as [H|[]]; discriminate.
Qed.

Lemma config_error_violated o :
  config_error N_RF_BOOTSTRAP o <-> violated o = true.
Proof.
  unfold config_error, violated, missing_out_of_range, bootstrap_out_of_range.
  rewrite !orb_true_iff, !String.eqb_eq, !Z.leb_le, !Z.ltb_lt. tauto.
Qed.

Lemma violated_exits o now :
  violated o = true ->
  verify_options o now = Exited (-1) (final_trace o now ++ [Eprint msg_correct]).
Proof. intros H. rewrite verify_options_eq, H. reflexivity. Qed.

Lemma out_trace_print o now m :
  m <> msg_correct ->
  (In (Eprint m) (out_trace (verify_options o now))
   <-> In (true, m) (checks o)).
Proof.
  intros Hm. rewrite verify_options_eq, <- (in_final_trace_print o now).
  destruct (violated o); cbn [out_trace]; [|tauto].
  rewrite in_app_iff. simpl. split; [|tauto].
  intros [H|[H|[]]]; [exact H|]. inversion H. congruence.
Qed.

Ltac other_message H :=
  exfalso; inversion H as [[Hc Hm]]; revert Hm; apply String.eqb_neq;
  vm_compute; reflexivity.

Lemma checks_bootstrap o :
  In (true, msg_bootstrap) (checks o) <-> bootstrap_out_of_range o = true.
Proof.
  unfold checks. simpl In. split.
  - intros H.
    do 10 (destruct H as [H|H]; [other_message H|]).
    destruct H as [H|H]; [inversion H; auto|].
    do 2 (destruct H as [H|H]; [other_message H|]).
    destruct H.
  - intros ->. tauto.
Qed.

Lemma checks_trees o :
  In (true, msg_trees) (checks o) <-> (n_trees o <? 10) = true.
Proof.
  unfold checks. simpl In. split.
  - intros H.
    do 9 (destruct H as [H|H]; [other_message H|]).
    destruct H as [H|H]; [inversion H; auto|].
    do 3 (destruct H as [H|H]; [other_message H|]).
    destruct H.
  - intros ->. tauto.
Qed.

(** *** The claims about [verify_options] *)

(** C6: [verify_options] emits the bootstrap diagnostic exactly when
    [bootstrap_mode < 0] or [bootstrap_mode >= N_RF_BOOTSTRAP]; in that case
    it exits with status -1; and whenever it returns, the mode lies in
    [0, N_RF_BOOTSTRAP - 1] (and is the one it was given). *)
Theorem bootstrap_mode_validated o now :
  (In (Eprint msg_bootstrap) (out_trace (verify_options o now))
   <-> bootstrap_mode o < 0 \/ N_RF_BOOTSTRAP <= bootstrap_mode o)
  /\ (bootstrap_mode o < 0 \/ N_RF_BOOTSTRAP <= bootstrap_mode o ->
      exists tr, verify_options o now = Exited (-1) tr)
  /\ (forall o' tr, verify_options o now = Returned o' tr ->
      bootstrap_mode o' = bootstrap_mode o
      /\ 0 <= bootstrap_mode o' <= N_RF_BOOTSTRAP - 1).
Proof.
  assert (Hb : bootstrap_out_of_range o = true
               <-> bootstrap_mode o < 0 \/ N_RF_BOOTSTRAP <= bootstrap_mode o).
  { unfold bootstrap_out_of_range. rewrite orb_true_iff, Z.ltb_lt, Z.leb_le. tauto. }
  split; [|split].
  - rewrite out_trace_print, checks_bootstrap by (apply String.eqb_neq; reflexivity).
    exact Hb.
  - intros H. eexists. apply violated_exits.
    apply config_error_violated. unfold config_error. tauto.
  - intros o' tr H. rewrite verify_options_eq in H.
    destruct (violated o) eqn:Hv; [discriminate|].
    inversion H; subst o' tr; clear H.
    assert (Heq : bootstrap_mode (final_opts o now) = bootstrap_mode o).
    { unfold final_opts. cbn [bootstrap_mode set_random_seed].
      destruct (threads_opts_fields (range_opts strtod o)) as (_ & _ & -> & _).
      now destruct (range_opts_fields o) as (_ & _ & _ & -> & _). }
    split; [exact Heq|]. rewrite Heq.
    destruct (Z.ltb_spec (bootstrap_mode o) 0) as [Hlt|Hge];
      [exfalso; apply not_true_iff_false in Hv; apply Hv, config_error_violated;
       unfold config_error; tauto|].
    destruct (Z.leb_spec N_RF_BOOTSTRAP (bootstrap_mode o)) as [Hle|Hgt];
      [exfalso; apply not_true_iff_false in Hv; apply Hv, config_error_violated;
       unfold config_error; tauto|].
    lia.
Qed.

(** C7: the seed [verify_options] stores (and hands to [srand]) is the wall
    clock when [random_seed_str] is exactly "clock", and otherwise the
    conversion of [strtod(random_seed_str)], whatever the clock says: two
    runs with the same string other than "clock" get the same seed. *)
Theorem seed_derivation o now :
  let seed o now := random_seed (vs_opts (verify_checks now (entry o))) in
  (random_seed_str o = "clock"%string -> seed o now = Some (wrap_int now))
  /\ (random_seed_str o <> "clock"%string ->
      seed o now = int_of_float (strtod (random_seed_str o)))
  /\ (forall o2 now2,
        random_seed_str o <> "clock"%string ->
        random_seed_str o2 = random_seed_str o ->
        seed o2 now2 = seed o now)
  /\ In (Esrand (seed o now)) (out_trace (verify_options o now))
  /\ (forall o' tr, verify_options o now = Returned o' tr ->
        random_seed o' = seed o now).
Proof.
  cbv zeta. unfold entry.
  assert (Hseed : forall o now,
             random_seed (vs_opts (verify_checks now (mk_vstate o 0 [])))
             = derived_seed strtod o now).
  { intros. rewrite verify_checks_eq. reflexivity. }
  rewrite !Hseed.
  split; [|split; [|split; [|split]]].
  - intros H. unfold derived_seed. rewrite H. reflexivity.
  - intros H. unfold derived_seed.
    apply String.eqb_neq in H. rewrite H. reflexivity.
  - intros o2 now2 H H2. rewrite Hseed. unfold derived_seed.
    rewrite H2. apply String.eqb_neq in H. rewrite H. reflexivity.
  - rewrite verify_options_eq.
    assert (Hin : In (Esrand (derived_seed strtod o now)) (final_trace o now)).
    { unfold final_trace. rewrite !in_app_iff. simpl. tauto. }
    destruct (violated o); cbn [out_trace]; [apply in_or_app; left|]; exact Hin.
  - intros o' tr H. rewrite verify_options_eq in H.
    destruct (violated o); [discriminate|]. inversion H. reflexivity.
Qed.

(** C8: a thread count below 1 becomes 1 and one of at least 1 is kept;
    the thread count has no influence on what [verify_options] prints or
    on whether it exits; whereas each range check on the other parameters
    makes it exit. *)
Theorem n_threads_clamped_silently o now :
  (n_threads o < 1 -> n_threads (vs_opts (verify_checks now (entry o))) = 1)
  /\ (1 <= n_threads o ->
      n_threads (vs_opts (verify_checks now (entry o))) = n_threads o)
  /\ (forall o' tr, verify_options o now = Returned o' tr ->
      n_threads o' = Z.max 1 (n_threads o))
  /\ (forall n,
        out_trace (verify_options (set_n_threads o n) now)
        = out_trace (verify_options o now)
        /\ has_exited (verify_options (set_n_threads o n) now)
           = has_exited (verify_options o now))
  /\ ((maximum_missing_data_freq o <? 0.0)%float = true
      \/ (1.0 <? maximum_missing_data_freq o)%float = true
      \/ rf_window_size o <= 0 \/ crf_spacing o <= 0
      \/ n_generations o < 0 \/ n_trees o < 10
      \/ bootstrap_mode o < 0 \/ N_RF_BOOTSTRAP <= bootstrap_mode o ->
      has_exited (verify_options o now) = true).
Proof.
  assert (Hn : n_threads (final_opts o now) = Z.max 1 (n_threads o)).
  { unfold final_opts. cbn [n_threads set_random_seed].
    destruct (threads_opts_fields (range_opts strtod o)) as (_ & _ & _ & _ & ->).
    now destruct (range_opts_fields o) as (-> & _). }
  unfold entry. rewrite verify_checks_eq. cbn [vs_opts].
  split; [|split; [|split; [|split]]].
  - intros H. rewrite Hn. lia.
  - intros H. rewrite Hn. lia.
  - intros o' tr H. rewrite verify_options_eq in H.
    destruct (violated o); [discriminate|]. inversion H. exact Hn.
  - intros n. rewrite !verify_options_eq.
    change (violated (set_n_threads o n)) with (violated o).
    change (final_trace (set_n_threads o n) now) with (final_trace o now).
    destruct (violated o); split; reflexivity.
  - intros H. rewrite violated_exits; [reflexivity|].
    apply config_error_violated. unfold config_error. tauto.
Qed.

(** C9: [verify_options] emits the forest-size diagnostic exactly when
    [n_trees < 10]; every such count makes it exit with status -1; and
    among counts of at least 10 the count has no influence on whether it
    exits. *)
Theorem n_trees_floor o now :
  (In (Eprint msg_trees) (out_trace (verify_options o now)) <-> n_trees o < 10)
  /\ (n_trees o < 10 -> exists tr, verify_options o now = Exited (-1) tr)
  /\ (forall n, 10 <= n_trees o -> 10 <= n ->
        ~ In (Eprint msg_trees)
             (out_trace (verify_options (set_n_trees o n) now))
        /\ has_exited (verify_options (set_n_trees o n) now)
           = has_exited (verify_options o now)).
Proof.
  split; [|split].
  - rewrite out_trace_print, checks_trees by (apply String.eqb_neq; reflexivity).
    apply Z.ltb_lt.
  - intros H. eexists. apply violated_exits.
    apply config_error_violated. unfold config_error. tauto.
  - intros n Ho Hn. split.
    + rewrite out_trace_print, checks_trees by (apply String.eqb_neq; reflexivity).
      cbn [n_trees set_n_trees]. rewrite Z.ltb_lt. lia.
    + rewrite !verify_options_eq.
      assert (Hv : violated (set_n_trees o n) = violated o).
      { unfold violated. cbn -[String.eqb Z.leb Z.ltb].
        change (missing_out_of_range (set_n_trees o n))
          with (missing_out_of_range o).
        change (bootstrap_out_of_range (set_n_trees o n))
          with (bootstrap_out_of_range o).
        change (range_malformed (set_n_trees o n)) with (range_malformed o).
        replace (n <? 10) with false by (symmetry; apply Z.ltb_ge; lia).
        replace (n_trees o <? 10) with false by (symmetry; apply Z.ltb_ge; lia).
        reflexivity. }
      rewrite Hv. destruct (violated o); reflexivity.
Qed.

(** C10: with every required name supplied and the tunable parameters as
    [init_options] leaves them, [rf_window_size] and [crf_spacing] are 0
    (the [int] fields truncate 0.2 and 0.1), both size checks fail and
    [verify_options] exits with status -1. *)
Theorem defaults_fail_validation nprocs now :
  rf_window_size (supplied_defaults nprocs) = 0
  /\ crf_spacing (supplied_defaults nprocs) = 0
  /\ exists tr,
       verify_options (supplied_defaults nprocs) now = Exited (-1) tr
       /\ In (Eprint msg_window) tr /\ In (Eprint msg_spacing) tr.
Proof.
  split; [vm_compute; reflexivity|]. split; [vm_compute; reflexivity|].
  eexists. split.
  - apply violated_exits. apply config_error_violated.
    unfold config_error. do 8 right. left. vm_compute. discriminate.
  - split; apply in_or_app; left; apply in_final_trace_print;
      unfold checks; simpl In.
    + do 6 right. left. f_equal.
    + do 7 right. left. f_equal.
Qed.

(** The defaults other than the two sizes are fine: with integral sizes
    of at least 1 and at least two bootstrap modes the run passes. *)
Remark sample_opts_pass now :
  1 < N_RF_BOOTSTRAP -> has_exited (verify_options sample_opts now) = false.
Proof.
  intros HN. rewrite verify_options_eq.
  assert (Hv : violated sample_opts = false).
  { unfold violated, bootstrap_out_of_range. cbn [bootstrap_mode sample_opts].
    replace (N_RF_BOOTSTRAP <=? 1) with false by (symmetry; apply Z.leb_gt; lia).
    vm_compute. reflexivity. }
  rewrite Hv. reflexivity.
Qed.

(** *** [main] *)

Variable cmdline_getoptions : list string -> rfmix_opts_t -> rfmix_opts_t.

Abbreviation rfmix_main := (main N_RF_BOOTSTRAP strtod cmdline_getoptions).

(** C5: when the options that reach [verify_options] have an empty required
    name, a frequency below 0 or above 1, a window size, spacing, generation
    or tree count or bootstrap mode out of range, or a non-empty analysis
    range without a [-], [main] ends in [exit(-1)], its trace holds no call
    to [load_input] or to any later stage, and holds the diagnostic of every
    check that fails.  These are the errors the code tests for: a range
    that has its [-] but an empty or non-numeric bound, and a NaN
    frequency, are not among them. *)
Theorem config_errors_are_fatal argv nprocs now :
  let o := cmdline_getoptions argv (init_options nprocs) in
  config_error N_RF_BOOTSTRAP o ->
  exists tr,
    rfmix_main argv nprocs now = Exited (-1) tr
    /\ (forall f, ~ In (Ecall f) tr)
    /\ (forall c msg, In (c, msg) (checks o) -> c = true -> In (Eprint msg) tr).
Proof.
  intros o H. apply config_error_violated in H.
  exists (final_trace o now ++ [Eprint msg_correct]).
  split; [|split].
  - unfold main. fold o. rewrite (violated_exits o now H).
    reflexivity.
  - intros f Hin. apply in_app_or in Hin. destruct Hin as [Hin|[Hin|[]]].
    + exact (no_call_in_final_trace o now f Hin).
    + discriminate.
  - intros c msg Hin ->. apply in_or_app; left.
    apply in_final_trace_print. exact Hin.
Qed.

(** When no check fails [main] goes on to [load_input] and the stages
    after it, and returns 0. *)
Lemma main_proceeds argv nprocs now :
  let o := cmdline_getoptions argv (init_options nprocs) in
  violated o = false ->
  exists tr, rfmix_main argv nprocs now = Returned 0 tr /\ In (Ecall load_input) tr.
Proof.
  intros o H. unfold main. fold o.
  rewrite verify_options_eq, H. eexists; split; [reflexivity|].
  apply in_or_app; right. simpl. tauto.
Qed.

End OptionsProps.

(** ** Instances on concrete configurations *)

Example strtod_digits_1234 : int_of_float (strtod_digits "1234") = Some 1234.
Proof. vm_compute. reflexivity. Qed.

Lemma config_errors_are_fatal_witness :
  exists tr,
    main 3 strtod_digits (fun _ o => o) [] 4 0 = Exited (-1) tr
    /\ (forall f, ~ In (Ecall f) tr)
    /\ (forall c msg, In (c, msg) (checks 3 (init_options 4)) -> c = true ->
        In (Eprint msg) tr).
Proof.
  apply (config_errors_are_fatal 3 strtod_digits (fun _ o => o) [] 4 0).
  left. reflexivity.
Defined.

(** C5 as worded does not hold: an analysis range with an empty or a
    non-numeric bound is malformed but has its separator, and a NaN
    frequency lies outside [0, 1] but passes both comparisons.  On each of
    them [main] goes on to [load_input] and returns 0; the bounds that
    [atof] could not read become 0. *)
Lemma config_error_counterexample :
  (exists tr,
     main 3 strtod_digits (fun _ _ => set_analyze_str sample_opts "-5") [] 4 0
     = Returned 0 tr /\ In (Ecall load_input) tr)
  /\ analyze_range (final_opts strtod_digits (set_analyze_str sample_opts "-5") 0)
     = (Some 0, Some 5000000)
  /\ (exists tr,
        main 3 strtod_digits (fun _ _ => set_analyze_str sample_opts "-") [] 4 0
        = Returned 0 tr /\ In (Ecall load_input) tr)
  /\ (exists tr,
        main 3 strtod_digits
          (fun _ _ => set_analyze_str sample_opts "abc-def") [] 4 0
        = Returned 0 tr /\ In (Ecall load_input) tr)
  /\ analyze_range
       (final_opts strtod_digits (set_analyze_str sample_opts "abc-def") 0)
     = (Some 0, Some 0)
  /\ ((0 <=? nan) && (nan <=? 1))%float = false
  /\ (exists tr,
        main 3 strtod_digits (fun _ _ => set_max_missing sample_opts nan) [] 4 0
        = Returned 0 tr /\ In (Ecall load_input) tr).
Proof.
  repeat split; try (vm_compute; reflexivity).
  - apply (main_proceeds 3 strtod_digits
             (fun _ _ => set_analyze_str sample_opts "-5") [] 4 0).
    vm_compute. reflexivity.
  - apply (main_proceeds 3 strtod_digits
             (fun _ _ => set_analyze_str sample_opts "-") [] 4 0).
    vm_compute. reflexivity.
  - apply (main_proceeds 3 strtod_digits
             (fun _ _ => set_analyze_str sample_opts "abc-def") [] 4 0).
    vm_compute. reflexivity.
  - apply (main_proceeds 3 strtod_digits
             (fun _ _ => set_max_missing sample_opts nan) [] 4 0).
    vm_compute. reflexivity.
Qed.

Lemma bootstrap_mode_validated_witness :
  (exists tr,
     verify_options 3 strtod_digits (set_bootstrap_mode sample_opts 3) 0
     = Exited (-1) tr)
  /\ 0 <= bootstrap_mode sample_opts <= 3 - 1.
Proof.
  split.
  - apply (proj1 (proj2 (bootstrap_mode_validated 3 strtod_digits
                           (set_bootstrap_mode sample_opts 3) 0))).
    right. vm_compute. discriminate.
  - assert (H : verify_options 3 strtod_digits sample_opts 0
                = Returned (final_opts strtod_digits sample_opts 0)
                           (final_trace 3 strtod_digits sample_opts 0))
      by (vm_compute; reflexivity).
    destruct (proj2 (proj2 (bootstrap_mode_validated 3 strtod_digits sample_opts 0))
                _ _ H) as [Heq Hrange].
    rewrite Heq in Hrange. exact Hrange.
Defined.

Lemma seed_derivation_witness :
  random_seed (vs_opts (verify_checks 3 strtod_digits 1700000000
                          (entry (set_random_seed_str sample_opts "clock"))))
  = Some 1700000000
  /\ random_seed (vs_opts (verify_checks 3 strtod_digits 1700000000
                             (entry sample_opts)))
     = Some 1234
  /\ random_seed (vs_opts (verify_checks 3 strtod_digits 5 (entry sample_opts)))
     = random_seed (vs_opts (verify_checks 3 strtod_digits 1700000000
                               (entry sample_opts))).
Proof.
  split; [|split].
  - apply (proj1 (seed_derivation 3 strtod_digits
                    (set_random_seed_str sample_opts "clock") 1700000000)).
    reflexivity.
  - rewrite (proj1 (proj2 (seed_derivation 3 strtod_digits sample_opts 1700000000))).
    + vm_compute. reflexivity.
    + apply String.eqb_neq. reflexivity.
  - apply (proj1 (proj2 (proj2 (seed_derivation 3 strtod_digits sample_opts
                                  1700000000)))).
    + apply String.eqb_neq. reflexivity.
    + reflexivity.
Defined.

Lemma n_threads_clamped_silently_witness :
  n_threads (vs_opts (verify_checks 3 strtod_digits 0
                        (entry (set_n_threads sample_opts (-2))))) = 1
  /\ n_threads (vs_opts (verify_checks 3 strtod_digits 0 (entry sample_opts))) = 4
  /\ has_exited (verify_options 3 strtod_digits (set_n_trees sample_opts 9) 0) = true.
Proof.
  split; [|split].
  - apply (proj1 (n_threads_clamped_silently 3 strtod_digits
                    (set_n_threads sample_opts (-2)) 0)).
    vm_compute. reflexivity.
  - apply (proj1 (proj2 (n_threads_clamped_silently 3 strtod_digits sample_opts 0))).
    vm_compute. discriminate.
  - apply (proj2 (proj2 (proj2 (proj2
             (n_threads_clamped_silently 3 strtod_digits
                (set_n_trees sample_opts 9) 0))))).
    do 5 right. left. vm_compute. reflexivity.
Defined.

Lemma n_trees_floor_witness :
  (exists tr,
     verify_options 3 strtod_digits (set_n_trees sample_opts 9) 0 = Exited (-1) tr)
  /\ has_exited (verify_options 3 strtod_digits (set_n_trees sample_opts 10) 0)
     = has_exited (verify_options 3 strtod_digits sample_opts 0).
Proof.
  split.
  - apply (proj1 (proj2 (n_trees_floor 3 strtod_digits
                           (set_n_trees sample_opts 9) 0))).
    vm_compute. reflexivity.
  - apply (proj2 (proj2 (n_trees_floor 3 strtod_digits sample_opts 0))).
    + vm_compute. discriminate.
    + lia.
Defined.

(** ** Bounds on [exp] *)

Section ExpBounds.

Local Open Scope R_scope.

Lemma exp_double y : exp (2 * y) = exp y * exp y.
Proof. replace (2 * y) with (y + y) by ring. apply exp_plus. Qed.

Lemma IZR_div_le a b : (0 < b)%Z -> IZR (a / b) <= IZR a / IZR b.
Proof.
  intros Hb. assert (Hb' : 0 < IZR b) by now apply IZR_lt.
  apply Rmult_le_reg_r with (IZR b); [exact Hb'|].
  unfold Rdiv. rewrite Rmult_assoc, Rinv_l, Rmult_1_r by lra.
  rewrite <- mult_IZR. apply IZR_le.
  rewrite Z.mul_comm. now apply Z.mul_div_le.
Qed.

Lemma sq_down_sound M a y :
  (0 <= M)%Z -> (0 <= a)%Z ->
  IZR a / IZR (2 ^ M) <= exp y ->
  (0 <= sq_down M a)%Z /\ IZR (sq_down M a) / IZR (2 ^ M) <= exp (2 * y).
Proof.
  intros HM Ha H.
  assert (Hp : (0 < 2 ^ M)%Z) by (apply Z.pow_pos_nonneg; lia).
  assert (Hp' : 0 < IZR (2 ^ M)) by now apply IZR_lt.
  assert (Ha' : 0 <= IZR a) by now apply IZR_le.
  split.
  - unfold sq_down. apply Z.div_pos; [nia|exact Hp].
  - rewrite exp_double.
    set (q := IZR a / IZR (2 ^ M)) in *.
    assert (Hq : 0 <= q) by (unfold q; apply Rmult_le_pos;
                             [exact Ha'|left; now apply Rinv_0_lt_compat]).
    apply Rle_trans with (q * q); [|apply Rmult_le_compat; assumption].
    unfold sq_down.
    apply Rle_trans with (IZR (a * a) / IZR (2 ^ M) / IZR (2 ^ M)).
    + apply Rmult_le_compat_r; [left; now apply Rinv_0_lt_compat|].
      now apply IZR_div_le.
    + rewrite mult_IZR. unfold q. right. field. lra.
Qed.

Lemma iter_sq_down_sound M k : forall a y,
  (0 <= M)%Z -> (0 <= a)%Z ->
  IZR a / IZR (2 ^ M) <= exp y ->
  IZR (iter_sq_down M k a) / IZR (2 ^ M) <= exp (2 ^ k * y).
Proof.
  induction k as [|k IH]; intros a y HM Ha H; cbn [iter_sq_down].
  - now rewrite pow_O, Rmult_1_l.
  - destruct (sq_down_sound M a y HM Ha H) as [Hs Hs'].
    specialize (IH _ _ HM Hs Hs').
    replace (2 ^ S k * y) with (2 ^ k * (2 * y)) by (simpl; ring).
    exact IH.
Qed.

Lemma exp_seed_sound M k n d :
  (0 <= M)%Z -> (0 < d)%Z ->
  IZR (exp_seed M k n d) / IZR (2 ^ M) <= exp (IZR n / IZR d / 2 ^ k).
Proof.
  intros HM Hd.
  assert (Hp : (0 < 2 ^ M)%Z) by (apply Z.pow_pos_nonneg; lia).
  assert (Hp' : 0 < IZR (2 ^ M)) by now apply IZR_lt.
  assert (Hk : (0 < 2 ^ Z.of_nat k)%Z) by (apply Z.pow_pos_nonneg; lia).
  assert (Hd' : 0 < IZR d) by now apply IZR_lt.
  assert (Hk' : 0 < 2 ^ k) by (apply pow_lt; lra).
  apply Rle_trans with (1 + IZR n / IZR d / 2 ^ k); [|apply exp_ineq1_le].
  unfold exp_seed. rewrite plus_IZR.
  unfold Rdiv at 1. rewrite Rmult_plus_distr_r, Rinv_r by lra.
  apply Rplus_le_compat_l.
  apply Rle_trans with (IZR (n * 2 ^ M) / IZR (d * 2 ^ Z.of_nat k) * / IZR (2 ^ M)).
  - apply Rmult_le_compat_r; [left; now apply Rinv_0_lt_compat|].
    apply IZR_div_le. nia.
  - rewrite !mult_IZR. rewrite <- (pow_IZR 2 k). right. field.
    repeat split; lra.
Qed.

Lemma exp_low_sound M k n d :
  (0 <= M)%Z -> (0 < d)%Z -> (0 <= exp_seed M k n d)%Z ->
  IZR (exp_low M k n d) / IZR (2 ^ M) <= exp (IZR n / IZR d).
Proof.
  intros HM Hd Hs. unfold exp_low.
  assert (Hk' : 0 < 2 ^ k) by (apply pow_lt; lra).
  assert (Hd' : 0 < IZR d) by now apply IZR_lt.
  replace (IZR n / IZR d) with (2 ^ k * (IZR n / IZR d / 2 ^ k))
    by (field; lra).
  apply iter_sq_down_sound; [exact HM|exact Hs|].
  now apply exp_seed_sound.
Qed.

(** A lower bound on [exp (n/d)] from a computation on integers. *)
Lemma exp_ge_check_sound M k cn cd n d :
  exp_ge_check M k cn cd n d = true ->
  IZR cn / IZR cd <= exp (IZR n / IZR d).
Proof.
  unfold exp_ge_check. rewrite !andb_true_iff.
  intros [[[[Hd Hcd] HM] Hs] Hc].
  apply Z.ltb_lt in Hd, Hcd. apply Z.leb_le in HM, Hs, Hc.
  assert (Hp : (0 < 2 ^ M)%Z) by (apply Z.pow_pos_nonneg; lia).
  assert (Hp' : 0 < IZR (2 ^ M)) by now apply IZR_lt.
  assert (Hcd' : 0 < IZR cd) by now apply IZR_lt.
  apply Rle_trans with (IZR (exp_low M k n d) / IZR (2 ^ M));
    [|now apply exp_low_sound].
  apply IZR_le in Hc. rewrite !mult_IZR in Hc.
  apply Rmult_le_reg_r with (IZR cd * IZR (2 ^ M)); [nra|].
  replace (IZR cn / IZR cd * (IZR cd * IZR (2 ^ M))) with (IZR cn * IZR (2 ^ M))
    by (field; lra).
  replace (IZR (exp_low M k n d) / IZR (2 ^ M) * (IZR cd * IZR (2 ^ M)))
    with (IZR cd * IZR (exp_low M k n d)) by (field; lra).
  exact Hc.
Qed.

(** An upper bound on [exp (n/d)], through [exp (- n/d)]. *)
Lemma exp_le_check_sound M k cn cd n d :
  (0 < cn)%Z -> (0 < cd)%Z ->
  exp_ge_check M k cd cn (- n) d = true ->
  exp (IZR n / IZR d) <= IZR cn / IZR cd.
Proof.
  intros Hcn Hcd H.
  apply exp_ge_check_sound in H.
  rewrite opp_IZR in H.
  replace (- IZR n / IZR d) with (- (IZR n / IZR d)) in H
    by (unfold Rdiv; ring).
  rewrite exp_Ropp in H.
  assert (He := exp_pos (IZR n / IZR d)).
  assert (Hcn' : 0 < IZR cn) by now apply IZR_lt.
  assert (Hcd' : 0 < IZR cd) by now apply IZR_lt.
  set (e := exp (IZR n / IZR d)) in *.
  apply Rmult_le_reg_r with (IZR cd); [exact Hcd'|].
  replace (IZR cn / IZR cd * IZR cd) with (IZR cn) by (field; lra).
  apply Rmult_le_compat_r with (r := e * IZR cn) in H; [|nra].
  replace (IZR cd / IZR cn * (e * IZR cn)) with (e * IZR cd) in H by (field; lra).
  replace (/ e * (e * IZR cn)) with (IZR cn) in H by (field; lra).
  exact H.
Qed.

Example exp_127_12_bounds :
  39471 <= exp (127 / 12) <= 39472.
Proof.
  split.
  - replace 39471 with (IZR 39471 / IZR 1) by (simpl; lra).
    apply (exp_ge_check_sound 128 40). vm_compute. reflexivity.
  - replace 39472 with (IZR 39472 / IZR 1) by (simpl; lra).
    apply (exp_le_check_sound 128 40); [lia|lia|]. vm_compute. reflexivity.
Qed.

End ExpBounds.

(** ** The codec *)

Section CodecProps.

Local Open Scope R_scope.

(** *** Signs and integral parts *)

Lemma Rsign_pos r : 0 < r -> Rsign r = Gt.
Proof.
  intros H. unfold Rsign.
  destruct (total_order_T r 0) as [[Hlt|Heq]|Hgt]; [lra|lra|reflexivity].
Qed.

Lemma Rsign_neg r : r < 0 -> Rsign r = Lt.
Proof.
  intros H. unfold Rsign.
  destruct (total_order_T r 0) as [[Hlt|Heq]|Hgt]; [reflexivity|lra|lra].
Qed.

Lemma Rsign_zero : Rsign 0 = Eq.
Proof.
  unfold Rsign.
  destruct (total_order_T 0 0) as [[Hlt|Heq]|Hgt]; [lra|reflexivity|lra].
Qed.

Lemma Ztrunc_nonneg r : 0 <= r -> Ztrunc r = Zfloor r.
Proof. intros H. unfold Ztrunc. destruct (Rlt_dec r 0); [lra|reflexivity]. Qed.

Lemma Ztrunc_neg r : r < 0 -> Ztrunc r = Zceil r.
Proof. intros H. unfold Ztrunc. destruct (Rlt_dec r 0); [reflexivity|lra]. Qed.

(** The integral part lies between 0 and the number, less than 1 away. *)
Lemma Ztrunc_spec r :
  (0 <= r -> IZR (Ztrunc r) <= r < IZR (Ztrunc r) + 1)
  /\ (r < 0 -> IZR (Ztrunc r) - 1 < r <= IZR (Ztrunc r)).
Proof.
  split; intros H.
  - rewrite Ztrunc_nonneg by exact H. apply Zfloor_bound.
  - rewrite Ztrunc_neg by exact H. apply Zceil_bound.
Qed.

Lemma Ztrunc_0 : Ztrunc 0 = 0%Z.
Proof. rewrite Ztrunc_nonneg by lra. apply (ZfloorZ 0). Qed.

Lemma Ztrunc_small r : 0 <= r < 1 -> Ztrunc r = 0%Z.
Proof.
  intros H. rewrite Ztrunc_nonneg by lra. apply Zfloor_eq. simpl. lra.
Qed.

Lemma Ztrunc_sign r :
  (0 <= r -> (0 <= Ztrunc r)%Z) /\ (r <= 0 -> (Ztrunc r <= 0)%Z).
Proof.
  split; intros H.
  - rewrite Ztrunc_nonneg by exact H. apply Zfloor_lub. simpl. exact H.
  - destruct (Req_dec r 0) as [-> | Hne]; [rewrite Ztrunc_0; lia|].
    assert (Hlt : r < 0) by lra.
    destruct (proj2 (Ztrunc_spec r) Hlt) as [Hlo _].
    apply Z.lt_succ_r. apply lt_IZR. rewrite succ_IZR. simpl. lra.
Qed.

Lemma Ztrunc_le r1 r2 : r1 <= r2 -> (Ztrunc r1 <= Ztrunc r2)%Z.
Proof.
  intros H.
  destruct (Rlt_dec r1 0) as [H1|H1]; destruct (Rlt_dec r2 0) as [H2|H2].
  - rewrite !Ztrunc_neg by assumption. now apply Zceil_le.
  - apply Z.le_trans with 0%Z.
    + apply Ztrunc_sign; lra.
    + apply Ztrunc_sign; lra.
  - lra.
  - rewrite !Ztrunc_nonneg by lra. now apply Zfloor_le.
Qed.

Lemma Ztrunc_opp r : Ztrunc (- r) = (- Ztrunc r)%Z.
Proof.
  destruct (total_order_T r 0) as [[Hlt|Heq]|Hgt].
  - rewrite (Ztrunc_nonneg (- r)), (Ztrunc_neg r) by lra. apply ZfloorN.
  - subst r. rewrite Ropp_0, Ztrunc_0. reflexivity.
  - rewrite (Ztrunc_neg (- r)), (Ztrunc_nonneg r) by lra. apply ZceilN.
Qed.

Lemma Ztrunc_err r : Rabs (IZR (Ztrunc r) - r) < 1.
Proof.
  destruct (Rlt_dec r 0) as [H|H].
  - destruct (proj2 (Ztrunc_spec r) H). apply Rabs_def1; lra.
  - destruct (proj1 (Ztrunc_spec r)); [lra|]. apply Rabs_def1; lra.
Qed.

Lemma Ztrunc_bound r (B : Z) :
  - IZR B <= r <= IZR B -> (- B <= Ztrunc r <= B)%Z.
Proof.
  intros [Hlo Hhi].
  rewrite <- (ZfloorZ B) at 2. rewrite <- (Ztrunc_nonneg (IZR B)) by lra.
  replace (- B)%Z with (Ztrunc (- IZR B))
    by (rewrite Ztrunc_opp, Ztrunc_nonneg, ZfloorZ by lra; reflexivity).
  split; now apply Ztrunc_le.
Qed.

(** *** The range of binary64 *)

Lemma pow2_pos n : 0 < 2 ^ n.
Proof. apply pow_lt. lra. Qed.

Lemma pow2_le m n : (m <= n)%nat -> 2 ^ m <= 2 ^ n.
Proof. intros H. apply Rle_pow; [lra|exact H]. Qed.

Lemma pow2_inv_le m n : (m <= n)%nat -> / 2 ^ n <= / 2 ^ m.
Proof.
  intros H. apply Rinv_le_contravar; [apply pow2_pos | now apply pow2_le].
Qed.

Lemma DBL_OVER_large : 2 ^ 1023 < DBL_OVER.
Proof.
  unfold DBL_OVER. rewrite pow_IZR. apply IZR_lt. vm_compute. reflexivity.
Qed.

Lemma DBL_UNDER_small : DBL_UNDER < / 2 ^ 1074.
Proof.
  unfold DBL_UNDER. rewrite pow_IZR.
  apply Rinv_lt_contravar.
  - rewrite <- mult_IZR. apply IZR_lt. vm_compute. reflexivity.
  - apply IZR_lt. vm_compute. reflexivity.
Qed.

Lemma fin_0 : fin 0 = Fin 0.
Proof.
  unfold fin. rewrite Rabs_R0.
  assert (H := DBL_OVER_large). assert (Hp := pow2_pos 1023).
  destruct (Rle_dec DBL_OVER 0); [lra|].
  destruct (Rle_dec 0 DBL_UNDER); reflexivity.
Qed.

(** A result between [2^-m] and [2^n] in magnitude, [m <= 1074] and
    [n <= 1023], neither overflows nor underflows. *)
Lemma fin_between (m n : nat) r :
  (m <= 1074)%nat -> (n <= 1023)%nat ->
  / 2 ^ m <= Rabs r <= 2 ^ n -> fin r = Fin r.
Proof.
  intros Hm Hn [Hlo Hhi]. unfold fin.
  assert (H1 := DBL_OVER_large). assert (H2 := DBL_UNDER_small).
  assert (H3 := pow2_le n 1023 Hn). assert (H4 := pow2_inv_le m 1074 Hm).
  destruct (Rle_dec DBL_OVER (Rabs r)); [lra|].
  destruct (Rle_dec (Rabs r) DBL_UNDER); [lra|reflexivity].
Qed.

Lemma pow2_16 : 2 ^ 16 = 65536.
Proof. simpl. ring. Qed.

Lemma pow2_53_large : 65536 <= 2 ^ 53.
Proof. rewrite <- pow2_16. apply pow2_le. lia. Qed.

Lemma pow2_1022_large : 65536 <= 2 ^ 1022.
Proof. rewrite <- pow2_16. apply pow2_le. lia. Qed.

(** *** Logarithm and the log-odds *)

Lemma ln_mono x y : 0 < x -> x <= y -> ln x <= ln y.
Proof.
  intros Hx [Hlt | ->]; [left; now apply ln_increasing | right; reflexivity].
Qed.

Lemma ln_2_le_1 : ln 2 <= 1.
Proof.
  rewrite <- (ln_exp 1). apply ln_mono; [lra|].
  generalize (exp_ineq1_le 1). lra.
Qed.

Lemma ln_pow2_1022 : ln (2 ^ 1022) <= 1022.
Proof.
  rewrite ln_pow by lra.
  replace (INR 1022) with 1022 by (rewrite INR_IZR_INZ; reflexivity).
  generalize ln_2_le_1. lra.
Qed.

Lemma open_unit_interior p : open_unit p -> 0 < p < 1.
Proof.
  unfold open_unit. intros [Hlo Hhi].
  assert (H : 0 < / 2 ^ 1022) by (apply Rinv_0_lt_compat, pow2_pos).
  assert (H' : 0 < / 2 ^ 53) by (apply Rinv_0_lt_compat, pow2_pos).
  lra.
Qed.

Lemma open_unit_decimal p : 0.00003 <= p <= 0.99997 -> open_unit p.
Proof.
  intros [Hlo Hhi]. unfold open_unit.
  assert (H : / 2 ^ 1022 <= / 65536)
    by (apply Rinv_le_contravar; [lra | apply pow2_1022_large]).
  assert (H' : / 2 ^ 53 <= / 65536)
    by (apply Rinv_le_contravar; [lra | apply pow2_53_large]).
  lra.
Qed.

Lemma open_unit_wide p : 1e-15 <= p <= 1 - 1e-15 -> open_unit p.
Proof.
  intros [Hlo Hhi]. unfold open_unit.
  assert (H50 : 2 ^ 50 = 1125899906842624) by (simpl; ring).
  assert (H : / 2 ^ 1022 <= / 2 ^ 50) by (apply pow2_inv_le; lia).
  assert (H' : / 2 ^ 53 <= / 2 ^ 50) by (apply pow2_inv_le; lia).
  rewrite H50 in H, H'. lra.
Qed.

Lemma odds_pos p : 0 < p < 1 -> 0 < (1 - p) / p.
Proof.
  intros [H0 H1]. apply Rmult_lt_0_compat; [lra | now apply Rinv_0_lt_compat].
Qed.

(** On the normal doubles of (0,1) the odds stay between [2^-1022] and
    [2^1022]. *)
Lemma odds_range p : open_unit p -> / 2 ^ 1022 <= (1 - p) / p <= 2 ^ 1022.
Proof.
  intros Hp. destruct (open_unit_interior p Hp) as [H0 H1].
  unfold open_unit in Hp. destruct Hp as [Hlo Hhi].
  assert (H53 := pow2_inv_le 53 1022 ltac:(lia)).
  set (B := 2 ^ 1022) in *.
  assert (HB : 0 < B) by apply pow2_pos.
  assert (HiB : 0 < / B) by now apply Rinv_0_lt_compat.
  split.
  - apply Rmult_le_reg_r with p; [exact H0|].
    unfold Rdiv. rewrite Rmult_assoc, Rinv_l, Rmult_1_r by lra.
    assert (/ B * p <= / B * 1) by (apply Rmult_le_compat_l; lra). lra.
  - apply Rmult_le_reg_r with p; [exact H0|].
    unfold Rdiv. rewrite Rmult_assoc, Rinv_l, Rmult_1_r by lra.
    assert (B * / B <= B * p) by (apply Rmult_le_compat_l; lra).
    rewrite Rinv_r in H by lra. lra.
Qed.

Lemma ln_odds_bound p : open_unit p -> - 1022 <= ln ((1 - p) / p) <= 1022.
Proof.
  intros Hp. destruct (odds_range p Hp) as [Hlo Hhi].
  assert (HB : 0 < 2 ^ 1022) by apply pow2_pos.
  assert (HiB : 0 < / 2 ^ 1022) by now apply Rinv_0_lt_compat.
  assert (Hl := ln_pow2_1022).
  split.
  - apply Rle_trans with (ln (/ 2 ^ 1022)).
    + rewrite ln_Rinv by exact HB. lra.
    + now apply ln_mono.
  - apply Rle_trans with (ln (2 ^ 1022)); [|exact Hl].
    apply ln_mono; lra.
Qed.



(** *** Evaluating the encoders and decoders *)

Lemma Ztrunc_small_abs x : -1 < x < 1 -> Ztrunc x = 0%Z.
Proof.
  intros [Hlo Hhi]. destruct (Rlt_dec x 0) as [H|H].
  - rewrite <- (Ropp_involutive x), Ztrunc_opp, Ztrunc_small by lra.
    reflexivity.
  - apply Ztrunc_small. lra.
Qed.

Lemma to_int8_id z : (-128 <= z <= 127)%Z -> to_int8 z = z.
Proof. intros H. unfold to_int8. rewrite Z.mod_small by lia. lia. Qed.

Lemma to_int16_id z : (-32768 <= z <= 32767)%Z -> to_int16 z = z.
Proof. intros H. unfold to_int16. rewrite Z.mod_small by lia. lia. Qed.

Lemma clamp_eq lo hi t :
  (lo <= hi)%Z ->
  (let tmp := if (t <? lo)%Z then lo else t in if (hi <? tmp)%Z then hi else tmp)
  = Z.min hi (Z.max lo t).
Proof.
  intros H. cbv zeta.
  destruct (Z.ltb_spec t lo) as [Hlo|Hlo].
  - destruct (Z.ltb_spec hi lo); lia.
  - destruct (Z.ltb_spec hi t); lia.
Qed.

Lemma in_int_bound z : (-1099776 <= z <= 1099776)%Z -> in_int z = true.
Proof.
  intros H. unfold in_int, INT_MIN, INT_MAX.
  apply andb_true_iff; split; apply Z.leb_le; lia.
Qed.

(** The conversion to [int] of a product that is small enough: a product
    that underflows converts to 0, as its exact value does. *)
Lemma int_of_double_fin r :
  Rabs r <= 1099776 -> int_of_double (fin r) = Some (Ztrunc r).
Proof.
  intros Hr. unfold fin.
  assert (H1 := DBL_OVER_large). assert (H2 := DBL_UNDER_small).
  assert (H3 := pow2_le 21 1023 ltac:(lia)).
  assert (H4 : 2 ^ 21 = 2097152) by (simpl; ring).
  assert (H5 := pow2_inv_le 1 1074 ltac:(lia)).
  assert (H6 : / 2 ^ 1 = / 2) by (simpl; f_equal; ring).
  destruct (Rle_dec DBL_OVER (Rabs r)); [lra|].
  destruct (Rle_dec (Rabs r) DBL_UNDER) as [Hu|Hu]; cbn [int_of_double].
  - rewrite Ztrunc_0. cbn.
    rewrite Ztrunc_small_abs; [reflexivity|].
    assert (Hr1 : Rabs r < 1) by lra.
    apply Rabs_def2 in Hr1. lra.
  - rewrite in_int_bound; [reflexivity|].
    apply (Ztrunc_bound _ 1099776).
    assert (Hr' : Rabs r < 1099776 \/ Rabs r = 1099776) by lra.
    unfold Rabs in Hr. destruct (Rcase_abs r); lra.
Qed.

Lemma odds_eval p :
  open_unit p -> ddiv (dsub (Fin 1) (Fin p)) (Fin p) = Fin ((1 - p) / p).
Proof.
  intros Hp. destruct (open_unit_interior p Hp) as [H0 H1].
  assert (Hq := odds_range p Hp).
  assert (Hq0 := odds_pos p (conj H0 H1)).
  unfold open_unit in Hp.
  cbn [dsub dneg dadd]. fold (1 - p).
  rewrite (fin_between 53 0 (1 - p)) by
    (try lia; rewrite Rabs_right by lra; simpl; lra).
  cbn [ddiv]. rewrite (Rsign_pos p) by lra.
  apply (fin_between 1022 1022); try lia.
  rewrite Rabs_right by lra. exact Hq.
Qed.

Lemma scaled_odds_int k p :
  open_unit p -> Rabs k <= 1024 ->
  int_of_double (dmul (Fin k) (dlog (ddiv (dsub (Fin 1) (Fin p)) (Fin p))))
  = Some (Ztrunc (k * ln ((1 - p) / p))).
Proof.
  intros Hp Hk. rewrite odds_eval by exact Hp.
  destruct (open_unit_interior p Hp) as [H0 H1].
  cbn [dlog]. rewrite Rsign_pos by (apply odds_pos; lra).
  cbn [dmul]. apply int_of_double_fin.
  destruct (ln_odds_bound p Hp) as [Hlo Hhi].
  assert (Hk' : -1024 <= k <= 1024)
    by (revert Hk; unfold Rabs; destruct (Rcase_abs k); lra).
  apply Rabs_le. split; nra.
Qed.

Lemma ef8_eval p :
  open_unit p ->
  ef8 (Fin p) = Some (Z.min 127 (Z.max (-127) (Ztrunc (-12 * ln ((1 - p) / p))))).
Proof.
  intros Hp. unfold ef8.
  rewrite scaled_odds_int; [|exact Hp|rewrite Rabs_left; lra].
  rewrite clamp_eq by lia. rewrite to_int8_id by lia. reflexivity.
Qed.

Lemma ef16_eval p :
  open_unit p ->
  ef16 (Fin p)
  = Some (Z.min 32767 (Z.max (-32767) (Ztrunc (-1024 * ln ((1 - p) / p))))).
Proof.
  intros Hp. unfold ef16.
  rewrite scaled_odds_int; [|exact Hp|rewrite Rabs_left; lra].
  rewrite clamp_eq by lia. rewrite to_int16_id by lia. reflexivity.
Qed.

Lemma exp_within_32 t : Rabs t <= 32 -> / 2 ^ 64 <= exp t <= 2 ^ 64.
Proof.
  intros Ht.
  assert (Ht' : -32 <= t <= 32)
    by (revert Ht; unfold Rabs; destruct (Rcase_abs t); lra).
  assert (Hup : exp (32 / 1) <= 100000000000000 / 1)
    by (apply (exp_le_check_sound 128 40); [lia|lia|vm_compute; reflexivity]).
  assert (Hdn : 1 / 100000000000000 <= exp (-32 / 1))
    by (apply (exp_ge_check_sound 128 40); vm_compute; reflexivity).
  assert (H64 : 2 ^ 64 = 18446744073709551616) by (simpl; ring).
  assert (Hm1 : exp (-32 / 1) <= exp t).
  { destruct (Req_dec t (-32 / 1)) as [->|Hne]; [lra|].
    left. apply exp_increasing. lra. }
  assert (Hm2 : exp t <= exp (32 / 1)).
  { destruct (Req_dec t (32 / 1)) as [->|Hne]; [lra|].
    left. apply exp_increasing. lra. }
  rewrite H64. lra.
Qed.

(** The decoder expression on a code whose scaled value is within 32 of 0:
    no step leaves the range of binary64. *)
Lemma decoder_eval (x : Z) (k : R) :
  -1024 <= k <= -1 -> Rabs (IZR x / k) <= 32 ->
  ddiv (Fin 1) (dadd (Fin 1) (dexp (ddiv (double_of_int x) (Fin k))))
  = Fin (1 / (1 + exp (IZR x / k))).
Proof.
  intros Hk Hx. unfold double_of_int. cbn [ddiv].
  rewrite (Rsign_neg k) by lra.
  assert (Ht : fin (IZR x / k) = Fin (IZR x / k)).
  { destruct (Z.eq_dec x 0) as [->|Hne].
    - unfold Rdiv. rewrite Rmult_0_l. apply fin_0.
    - apply (fin_between 10 5); try lia.
      assert (H10 : 2 ^ 10 = 1024) by (simpl; ring).
      assert (H5 : 2 ^ 5 = 32) by (simpl; ring).
      rewrite H10, H5. split; [|exact Hx].
      unfold Rdiv. rewrite Rabs_mult.
      assert (Hx1 : 1 <= Rabs (IZR x)).
      { rewrite <- abs_IZR. apply (IZR_le 1). lia. }
      assert (Hk1 : / 1024 <= Rabs (/ k)).
      { rewrite Rabs_left by (apply Rinv_lt_0_compat; lra).
        rewrite <- Rinv_opp. apply Rinv_le_contravar; lra. }
      assert (0 < / 1024) by lra. nra. }
  rewrite Ht. cbn [dexp].
  destruct (exp_within_32 _ Hx) as [Hlo Hhi].
  assert (He := exp_pos (IZR x / k)).
  assert (H64 : 2 ^ 64 = 18446744073709551616) by (simpl; ring).
  rewrite (fin_between 64 64) by (try lia; rewrite Rabs_right by lra; lra).
  cbn [dadd].
  assert (H65 := pow2_le 64 65 ltac:(lia)).
  assert (H65' : 2 ^ 65 = 2 * 2 ^ 64) by (simpl; ring).
  rewrite (fin_between 0 65) by
    (try lia; rewrite Rabs_right by lra; simpl pow at 1; lra).
  cbn [ddiv]. rewrite Rsign_pos by lra.
  apply (fin_between 65 0); try lia.
  assert (Hinv : / 2 ^ 65 <= 1 / (1 + exp (IZR x / k)) <= 1).
  { unfold Rdiv. rewrite Rmult_1_l. split.
    - apply Rinv_le_contravar; lra.
    - rewrite <- Rinv_1 at 2. apply Rinv_le_contravar; lra. }
  rewrite Rabs_right by lra. simpl pow at 2. lra.
Qed.

Lemma DF8_eval x :
  (-128 <= x <= 127)%Z -> DF8 x = Fin (logistic (IZR x / 12)).
Proof.
  intros [Hlo Hhi]. apply IZR_le in Hlo, Hhi.
  unfold DF8. rewrite decoder_eval; [|lra|apply Rabs_le; lra].
  unfold logistic.
  replace (IZR x / -12) with (- (IZR x / 12)) by field. reflexivity.
Qed.

Lemma DF16_eval x :
  (-32768 <= x <= 32767)%Z -> DF16 x = Fin (logistic (IZR x / 1024)).
Proof.
  intros [Hlo Hhi]. apply IZR_le in Hlo, Hhi.
  unfold DF16. rewrite decoder_eval; [|lra|apply Rabs_le; lra].
  unfold logistic.
  replace (IZR x / -1024) with (- (IZR x / 1024)) by field. reflexivity.
Qed.

(** *** The logistic function *)

Lemma logistic_range t : 0 < logistic t < 1.
Proof.
  unfold logistic. assert (He := exp_pos (- t)).
  split.
  - apply Rdiv_lt_0_compat; lra.
  - apply Rmult_lt_reg_r with (1 + exp (- t)); [lra|].
    unfold Rdiv. rewrite Rmult_assoc, Rinv_l by lra. lra.
Qed.

Lemma logistic_opp t : logistic (- t) = 1 - logistic t.
Proof.
  unfold logistic. rewrite Ropp_involutive, exp_Ropp.
  assert (He := exp_pos t). field. split; lra.
Qed.

Lemma logistic_0 : logistic 0 = 1 / 2.
Proof. unfold logistic. rewrite Ropp_0, exp_0. lra. Qed.

Lemma logistic_logit p : 0 < p < 1 -> logistic (logit p) = p.
Proof.
  intros Hp. unfold logistic, logit.
  rewrite Ropp_involutive, exp_ln by now apply odds_pos.
  field. lra.
Qed.

Lemma derivable_pt_lim_logistic c : derivable_pt_lim logistic c (logistic' c).
Proof.
  assert (He := exp_pos (- c)).
  assert (Hneg : derivable_pt_lim (comp exp (- id)%F) c (exp (- c) * - 1)).
  { apply derivable_pt_lim_comp.
    - apply derivable_pt_lim_opp, derivable_pt_lim_id.
    - apply derivable_pt_lim_exp. }
  assert (Hden : derivable_pt_lim (fct_cte 1 + comp exp (- id))%F c
                   (0 + exp (- c) * - 1)).
  { apply derivable_pt_lim_plus; [apply derivable_pt_lim_const|exact Hneg]. }
  assert (Hnz : (fct_cte 1 + comp exp (- id))%F c <> 0)
    by (unfold plus_fct, fct_cte, comp, opp_fct, id; lra).
  assert (Hdiv := derivable_pt_lim_div (fct_cte 1)
                    (fct_cte 1 + comp exp (- id))%F c 0 _
                    (derivable_pt_lim_const 1 c) Hden Hnz).
  replace (logistic' c)
    with ((0 * (fct_cte 1 + comp exp (- id))%F c
           - (0 + exp (- c) * - 1) * fct_cte 1 c)
          / Rsqr ((fct_cte 1 + comp exp (- id))%F c)).
  - exact Hdiv.
  - unfold logistic', plus_fct, fct_cte, comp, opp_fct, id, Rsqr.
    field. lra.
Qed.

Lemma logistic'_bound c : 0 <= logistic' c <= 1 / 4.
Proof.
  unfold logistic', Rsqr. set (u := exp (- c)).
  assert (Hu : 0 < u) by apply exp_pos.
  assert (Hd : 0 < (1 + u) * (1 + u)) by nra.
  split.
  - apply Rmult_le_pos; [lra | left; now apply Rinv_0_lt_compat].
  - apply Rmult_le_reg_r with ((1 + u) * (1 + u)); [exact Hd|].
    unfold Rdiv. rewrite Rmult_assoc, Rinv_l by (apply Rgt_not_eq; exact Hd).
    clearbody u. pose proof (Rle_0_sqr (1 - u)) as Hsq. unfold Rsqr in Hsq.
    nra.
Qed.

(** The logistic function grows, and by at most a quarter of the step. *)
Lemma logistic_step a b :
  a <= b -> 0 <= logistic b - logistic a <= (b - a) / 4.
Proof.
  intros [Hlt | ->]; [|lra].
  destruct (MVT_cor2 logistic logistic' a b Hlt) as (c & Hc & _).
  - intros c _. apply derivable_pt_lim_logistic.
  - rewrite Hc. destruct (logistic'_bound c). split; nra.
Qed.

Lemma logistic_mono a b : a <= b -> logistic a <= logistic b.
Proof. intros H. destruct (logistic_step a b H). lra. Qed.

Lemma logistic_lipschitz a b :
  Rabs (logistic a - logistic b) <= Rabs (a - b) / 4.
Proof.
  destruct (Rle_dec a b) as [H|H].
  - destruct (logistic_step a b H).
    rewrite (Rabs_left1 (logistic a - logistic b)) by lra.
    rewrite (Rabs_left1 (a - b)) by lra. lra.
  - destruct (logistic_step b a) as [H1 H2]; [lra|].
    rewrite (Rabs_right (logistic a - logistic b)) by lra.
    rewrite (Rabs_right (a - b)) by lra. lra.
Qed.

Lemma logistic_ge_of_exp_le t B :
  exp (- t) <= B -> 1 / (1 + B) <= logistic t.
Proof.
  intros H. unfold logistic. assert (He := exp_pos (- t)).
  unfold Rdiv. rewrite !Rmult_1_l. apply Rinv_le_contravar; lra.
Qed.

Lemma logistic_le_of_exp_ge t B :
  0 <= B -> B <= exp (- t) -> logistic t <= 1 / (1 + B).
Proof.
  intros HB H. unfold logistic.
  unfold Rdiv. rewrite !Rmult_1_l. apply Rinv_le_contravar; lra.
Qed.

(** *** Numerical facts *)

Lemma exp_127_12_upper : exp (127 / 12) <= 999974666 / 25334.
Proof.
  apply (exp_le_check_sound 160 40); [lia|lia|]. vm_compute. reflexivity.
Qed.

Lemma exp_127_12_lower : 33333 <= exp (127 / 12).
Proof.
  replace 33333 with (33333 / 1) by lra.
  apply (exp_ge_check_sound 160 40). vm_compute. reflexivity.
Qed.

Lemma exp_m127_12_lower : 253 / 9999747 <= exp (-127 / 12).
Proof. apply (exp_ge_check_sound 160 40). vm_compute. reflexivity. Qed.

Lemma exp_32767_1024_upper :
  exp (32767 / 1024) <= 9999999999999873235 / 126765.
Proof.
  apply (exp_le_check_sound 200 48); [lia|lia|]. vm_compute. reflexivity.
Qed.

Lemma exp_32767_1024_lower :
  9999999999999873234 / 126766 <= exp (32767 / 1024).
Proof. apply (exp_ge_check_sound 200 48). vm_compute. reflexivity. Qed.

Lemma exp_m1_12_upper : exp (-1 / 12) <= 921 / 1000.
Proof.
  apply (exp_le_check_sound 64 8 921 1000 (-1) 12); [lia|lia|].
  vm_compute. reflexivity.
Qed.

Lemma exp_m1_1024_upper : exp (-1 / 1024) <= 9990242 / 10000000.
Proof.
  apply (exp_le_check_sound 128 32 9990242 10000000 (-1) 1024); [lia|lia|].
  vm_compute. reflexivity.
Qed.

(** On the tested interval the log-odds stay within the 8-bit range. *)
Lemma ln_odds_decimal p :
  0.00003 <= p <= 0.99997 -> - (127 / 12) <= ln ((1 - p) / p) <= 127 / 12.
Proof.
  intros [Hlo Hhi].
  assert (Hodds : 0 < (1 - p) / p) by (apply odds_pos; lra).
  assert (He := exp_127_12_lower).
  split.
  - rewrite <- (ln_exp (- (127 / 12))). apply ln_mono; [apply exp_pos|].
    rewrite exp_Ropp.
    apply Rle_trans with (/ 33333).
    + apply Rinv_le_contravar; lra.
    + apply Rmult_le_reg_r with p; [lra|].
      unfold Rdiv. rewrite Rmult_assoc, Rinv_l, Rmult_1_r by lra. lra.
  - rewrite <- (ln_exp (127 / 12)). apply ln_mono; [exact Hodds|].
    apply Rle_trans with 33333; [|exact He].
    apply Rmult_le_reg_r with p; [lra|].
    unfold Rdiv. rewrite Rmult_assoc, Rinv_l, Rmult_1_r by lra. lra.
Qed.

(** *** The claims about the codec *)

(** What the encoders return on a normal double strictly between 0 and 1. *)
Lemma encoder_total_interior p :
  open_unit p ->
  exists c c',
    ef8 (Fin p) = Some c /\ (-127 <= c <= 127)%Z
    /\ ef16 (Fin p) = Some c' /\ (-32767 <= c' <= 32767)%Z.
Proof.
  intros Hp. rewrite ef8_eval, ef16_eval by exact Hp.
  do 2 eexists. repeat split; lia.
Qed.

(** C2, at its failing inputs: for a probability of exactly 0 or exactly 1
    the log-odds are infinite and their conversion to [int], which comes
    before the clamping, has no defined result. *)
Theorem encoder_undefined_at_extremes :
  ef8 (Fin 0) = None /\ ef8 (Fin 1) = None
  /\ ef16 (Fin 0) = None /\ ef16 (Fin 1) = None.
Proof.
  assert (F1 : fin 1 = Fin 1)
    by (apply (fin_between 0 0); try lia; rewrite Rabs_R1; simpl; lra).
  assert (H0 : forall k, k < 0 ->
            dmul (Fin k) (dlog (ddiv (dsub (Fin 1) (Fin 0)) (Fin 0))) = MInf).
  { intros k Hk. cbn [dsub dneg dadd].
    replace (1 + - 0) with 1 by lra. rewrite F1.
    cbn [ddiv]. rewrite Rsign_zero.
    rewrite Rsign_pos by lra. cbn [signed_inf dlog dmul].
    rewrite Rsign_neg by exact Hk. reflexivity. }
  assert (H1 : forall k, k < 0 ->
            dmul (Fin k) (dlog (ddiv (dsub (Fin 1) (Fin 1)) (Fin 1))) = PInf).
  { intros k Hk. cbn [dsub dneg dadd].
    replace (1 + - (1)) with 0 by lra. rewrite fin_0.
    cbn [ddiv]. rewrite (Rsign_pos 1) by lra.
    replace (0 / 1) with 0 by lra. rewrite fin_0.
    cbn [dlog]. rewrite Rsign_zero.
    cbn [dmul signed_inf CompOpp]. rewrite Rsign_neg by exact Hk. reflexivity. }
  unfold ef8, ef16. rewrite !H0, !H1 by lra. repeat split; reflexivity.
Qed.


Lemma exp_127_12_lower_fine : 999974665 / 25335 <= exp (127 / 12).
Proof. apply (exp_ge_check_sound 160 40). vm_compute. reflexivity. Qed.

Lemma exp_m127_12_upper_fine : exp (-127 / 12) <= 254 / 9999746.
Proof.
  apply (exp_le_check_sound 160 40 254 9999746 (-127) 12); [lia|lia|].
  vm_compute. reflexivity.
Qed.

(** C4: every 8-bit code in [-127, 127] decodes to a value between
    [DF8(-127)] and [DF8(127)]; [DF8(-127)] is 0.000025334 and [DF8(127)]
    is 0.9999747, each to the last digit given (0.000025334 <= DF8(-127) <=
    0.000025335 and 0.9999746 <= DF8(127) <= 0.9999747).  Every 16-bit code
    in [-32767, 32767] decodes to a value strictly between 0 and 1 and at
    least [DF16(-32767)], which is 1.26765e-14 to six significant digits. *)
Theorem decoder_range :
  (forall c, (-127 <= c <= 127)%Z ->
     exists v lo hi,
       DF8 c = Fin v /\ DF8 (-127) = Fin lo /\ DF8 127 = Fin hi
       /\ lo <= v <= hi
       /\ 0.000025334 <= lo <= 0.000025335
       /\ 0.9999746 <= hi <= 0.9999747)
  /\ (forall c, (-32767 <= c <= 32767)%Z ->
        exists v lo,
          DF16 c = Fin v /\ DF16 (-32767) = Fin lo
          /\ 0 < v < 1 /\ lo <= v
          /\ 1.26765e-14 <= lo <= 1.26766e-14).
Proof.
  split.
  - intros c [Hlo Hhi]. rewrite !DF8_eval by lia.
    do 3 eexists. repeat (split; [reflexivity|]).
    split; [|split; split].
    + apply IZR_le in Hlo, Hhi. split; apply logistic_mono; lra.
    + apply Rle_trans with (1 / (1 + 999974666 / 25334)); [lra|].
      apply logistic_ge_of_exp_le.
      replace (- (-127 / 12)) with (127 / 12) by lra.
      apply exp_127_12_upper.
    + apply Rle_trans with (1 / (1 + 999974665 / 25335)); [|lra].
      apply logistic_le_of_exp_ge; [lra|].
      replace (- (-127 / 12)) with (127 / 12) by lra.
      apply exp_127_12_lower_fine.
    + apply Rle_trans with (1 / (1 + 254 / 9999746)); [lra|].
      apply logistic_ge_of_exp_le.
      replace (- (127 / 12)) with (-127 / 12) by lra.
      apply exp_m127_12_upper_fine.
    + apply Rle_trans with (1 / (1 + 253 / 9999747)); [|lra].
      apply logistic_le_of_exp_ge; [lra|].
      replace (- (127 / 12)) with (-127 / 12) by lra.
      apply exp_m127_12_lower.
  - intros c [Hlo Hhi]. rewrite !DF16_eval by lia.
    do 2 eexists. repeat split.
    + apply logistic_range.
    + apply logistic_range.
    + apply logistic_mono. apply IZR_le in Hlo. lra.
    + apply Rle_trans with (1 / (1 + 9999999999999873235 / 126765)); [lra|].
      apply logistic_ge_of_exp_le.
      replace (- (-32767 / 1024)) with (32767 / 1024) by lra.
      apply exp_32767_1024_upper.
    + apply Rle_trans with (1 / (1 + 9999999999999873234 / 126766)); [|lra].
      apply logistic_le_of_exp_ge; [lra|].
      replace (- (-32767 / 1024)) with (32767 / 1024) by lra.
      apply exp_32767_1024_lower.
Qed.

(** The round trip through a codec of scale [k]: the decoded value of the
    truncated scaled log-odds is within [1 / (4 k)] of [p]. *)
Lemma roundtrip_truncation k p :
  0 < k -> 0 < p < 1 ->
  Rabs (logistic (IZR (Ztrunc (- k * ln ((1 - p) / p))) / k) - p) <= 1 / (4 * k).
Proof.
  intros Hk Hp.
  set (x := - k * ln ((1 - p) / p)).
  assert (Hx : p = logistic (x / k)).
  { rewrite <- (logistic_logit p Hp) at 1. f_equal. unfold logit, x. field. lra. }
  rewrite Hx at 1.
  apply Rle_trans with (Rabs (IZR (Ztrunc x) / k - x / k) / 4);
    [apply logistic_lipschitz|].
  replace (IZR (Ztrunc x) / k - x / k) with ((IZR (Ztrunc x) - x) * / k)
    by (field; lra).
  rewrite Rabs_mult, (Rabs_right (/ k))
    by (left; now apply Rinv_0_lt_compat).
  assert (He := Ztrunc_err x). assert (Hik : 0 < / k) by now apply Rinv_0_lt_compat.
  replace (1 / (4 * k)) with (1 * / k / 4) by (field; lra).
  apply Rmult_le_compat_r; [lra|].
  apply Rmult_le_compat_r; lra.
Qed.

Lemma roundtrip8_eval p :
  0.00003 <= p <= 0.99997 ->
  roundtrip8 p
  = Some (Rabs (logistic (IZR (Ztrunc (-12 * ln ((1 - p) / p))) / 12) - p)).
Proof.
  intros Hp. unfold roundtrip8.
  rewrite ef8_eval by now apply open_unit_decimal.
  destruct (ln_odds_decimal p Hp) as [Hlo Hhi].
  assert (Ht : (-127 <= Ztrunc (-12 * ln ((1 - p) / p)) <= 127)%Z)
    by (apply (Ztrunc_bound _ 127); lra).
  rewrite Z.max_r, Z.min_r by lia.
  rewrite DF8_eval by lia. reflexivity.
Qed.

Lemma roundtrip16_eval p :
  0.00003 <= p <= 0.99997 ->
  roundtrip16 p
  = Some (Rabs (logistic (IZR (Ztrunc (-1024 * ln ((1 - p) / p))) / 1024) - p)).
Proof.
  intros Hp. unfold roundtrip16.
  rewrite ef16_eval by now apply open_unit_decimal.
  destruct (ln_odds_decimal p Hp) as [Hlo Hhi].
  assert (Ht : (-32767 <= Ztrunc (-1024 * ln ((1 - p) / p)) <= 32767)%Z)
    by (apply (Ztrunc_bound _ 32767); lra).
  rewrite Z.max_r, Z.min_r by lia.
  rewrite DF16_eval by lia. reflexivity.
Qed.

(** C1 as amended: on [0.00003, 0.99997] the round trip through the 8-bit
    codec is within 1/48 of [p], and through the 16-bit codec within
    1/4096. *)
Theorem roundtrip_error_bound p :
  0.00003 <= p <= 0.99997 ->
  (exists e, roundtrip8 p = Some e /\ e <= 1 / 48)
  /\ (exists e, roundtrip16 p = Some e /\ e <= 1 / 4096).
Proof.
  intros Hp. rewrite roundtrip8_eval, roundtrip16_eval by exact Hp.
  split; eexists; (split; [reflexivity|]).
  - replace (1 / 48) with (1 / (4 * 12)) by lra.
    apply (roundtrip_truncation 12); lra.
  - replace (1 / 4096) with (1 / (4 * 1024)) by lra.
    apply (roundtrip_truncation 1024); lra.
Qed.

(** A probability whose scaled log-odds lie in [0, 1) is encoded as 0. *)
Lemma trunc_to_zero k p B :
  0 < k -> 1 / 2 <= p < 1 ->
  exp (-1 / k) <= B -> B < (1 - p) / p ->
  Ztrunc (- k * ln ((1 - p) / p)) = 0%Z.
Proof.
  intros Hk Hp HB Hq.
  assert (Hodds : 0 < (1 - p) / p) by (apply odds_pos; lra).
  assert (Hle : (1 - p) / p <= 1).
  { apply Rmult_le_reg_r with p; [lra|].
    unfold Rdiv. rewrite Rmult_assoc, Rinv_l by lra. lra. }
  assert (H0 : ln ((1 - p) / p) <= 0)
    by (rewrite <- ln_1; now apply ln_mono).
  assert (H1 : -1 / k < ln ((1 - p) / p)).
  { rewrite <- (ln_exp (-1 / k)). apply ln_increasing; [apply exp_pos|lra]. }
  apply Ztrunc_small. split; [nra|].
  apply Rmult_lt_compat_l with (r := k) in H1; [|exact Hk].
  replace (k * (-1 / k)) with (-1) in H1 by (field; lra). lra.
Qed.

(** C1 as stated fails: the code of 0.5203 is 0, which decodes to 0.5, off by
    0.0203 > 0.02; the 16-bit code of 0.500244 is 0 as well, off by
    0.000244 > 0.00024. *)
Lemma roundtrip_error_counterexample :
  (0.00003 <= 0.5203 <= 0.99997
   /\ exists e, roundtrip8 0.5203 = Some e /\ 0.02 < e)
  /\ (0.00003 <= 0.500244 <= 0.99997
      /\ exists e, roundtrip16 0.500244 = Some e /\ 0.00024 < e).
Proof.
  split; (split; [lra|]).
  - rewrite roundtrip8_eval by lra. eexists; split; [reflexivity|].
    assert (Hz : Ztrunc (-12 * ln ((1 - 0.5203) / 0.5203)) = 0%Z)
      by (apply (trunc_to_zero 12 0.5203 (921 / 1000));
          [lra|lra|exact exp_m1_12_upper|lra]).
    rewrite Hz.
    replace (0 / 12) with 0 by lra. rewrite logistic_0.
    rewrite Rabs_left by lra. lra.
  - rewrite roundtrip16_eval by lra. eexists; split; [reflexivity|].
    assert (Hz : Ztrunc (-1024 * ln ((1 - 0.500244) / 0.500244)) = 0%Z)
      by (apply (trunc_to_zero 1024 0.500244 (9990242 / 10000000));
          [lra|lra|exact exp_m1_1024_upper|lra]).
    rewrite Hz.
    replace (0 / 1024) with 0 by lra. rewrite logistic_0.
    rewrite Rabs_left by lra. lra.
Qed.

(** *** Instances on concrete probabilities and codes *)

Lemma roundtrip_error_bound_witness :
  (exists e, roundtrip8 (1 / 4) = Some e /\ e <= 1 / 48)
  /\ (exists e, roundtrip16 (1 / 4) = Some e /\ e <= 1 / 4096).
Proof. apply (roundtrip_error_bound (1 / 4)). lra. Defined.


Lemma decoder_range_witness :
  (exists v lo hi,
     DF8 0 = Fin v /\ DF8 (-127) = Fin lo /\ DF8 127 = Fin hi
     /\ lo <= v <= hi
     /\ 0.000025334 <= lo <= 0.000025335
     /\ 0.9999746 <= hi <= 0.9999747)
  /\ (exists v lo,
        DF16 0 = Fin v /\ DF16 (-32767) = Fin lo
        /\ 0 < v < 1 /\ lo <= v
        /\ 1.26765e-14 <= lo <= 1.26766e-14).
Proof.
  split.
  - apply (proj1 decoder_range 0%Z). lia.
  - apply (proj2 decoder_range 0%Z). lia.
Defined.

End CodecProps.

(** ** More about [verify_options] and [main] *)

Lemma prints_app a b : prints (a ++ b) = prints a ++ prints b.
Proof.
  induction a as [|e a IH]; [reflexivity|].
  destruct e; cbn [app prints]; rewrite IH; reflexivity.
Qed.

Lemma calls_app a b : calls (a ++ b) = calls a ++ calls b.
Proof.
  induction a as [|e a IH]; [reflexivity|].
  destruct e; cbn [app calls]; rewrite IH; reflexivity.
Qed.

Lemma srands_app a b : srands (a ++ b) = srands a ++ srands b.
Proof.
  induction a as [|e a IH]; [reflexivity|].
  destruct e; cbn [app srands]; rewrite IH; reflexivity.
Qed.

Lemma prints_diag c m : prints (diag c m) = if c then [m] else [].
Proof. destruct c; reflexivity. Qed.

Lemma calls_diag c m : calls (diag c m) = [].
Proof. destruct c; reflexivity. Qed.

Lemma srands_diag c m : srands (diag c m) = [].
Proof. destruct c; reflexivity. Qed.

Lemma failing_cons (c : bool) (m : string) l :
  map snd (filter fst ((c, m) :: l))
  = (if c then [m] else []) ++ map snd (filter fst l).
Proof. cbn [filter fst]. destruct c; reflexivity. Qed.

Section OptionsExtras.

Variable N_RF_BOOTSTRAP : Z.
Variable strtod : string -> float.

Abbreviation verify_checks' := (verify_checks N_RF_BOOTSTRAP strtod).
Abbreviation verify_options' := (verify_options N_RF_BOOTSTRAP strtod).
Abbreviation violated' := (violated N_RF_BOOTSTRAP).
Abbreviation checks' := (checks N_RF_BOOTSTRAP).
Abbreviation final_trace' := (final_trace N_RF_BOOTSTRAP strtod).
Abbreviation final_opts' := (final_opts strtod).

Lemma range_events_shape o :
  prints (range_events strtod o) = (if range_malformed o then [msg_range] else [])
  /\ calls (range_events strtod o) = []
  /\ srands (range_events strtod o) = [].
Proof.
  unfold range_events, range_malformed, strsep.
  destruct (negb (analyze_str o =? "")%string); cbn [andb];
    [|repeat split].
  destruct (split_token (analyze_str o) "-") as [tok [en|]]; repeat split.
Qed.

Lemma prints_final_trace o now :
  prints (final_trace' o now) = map snd (filter fst (checks' o)).
Proof.
  unfold final_trace, checks. rewrite !failing_cons.
  rewrite !prints_app, !prints_diag.
  rewrite (proj1 (range_events_shape o)). cbn [prints filter map].
  rewrite app_nil_r. reflexivity.
Qed.

(** The diagnostics printed are exactly the messages of the checks that
    fail, once each and in the order of the checks, followed by the closing
    line when there is one at all. *)
Theorem diagnostics_in_order o now :
  prints (out_trace (verify_options' o now))
  = map snd (filter fst (checks' o))
    ++ (if violated' o then [msg_correct] else []).
Proof.
  rewrite verify_options_eq.
  destruct (violated' o); cbn [out_trace].
  - rewrite prints_app, prints_final_trace. reflexivity.
  - rewrite prints_final_trace, app_nil_r. reflexivity.
Qed.

(** [srand] is called exactly once, with the derived seed, whether the
    function then returns or exits. *)
Theorem srand_called_once o now :
  srands (out_trace (verify_options' o now)) = [derived_seed strtod o now].
Proof.
  assert (H : srands (final_trace' o now) = [derived_seed strtod o now]).
  { unfold final_trace. rewrite !srands_app, !srands_diag.
    rewrite (proj2 (proj2 (range_events_shape o))). reflexivity. }
  rewrite verify_options_eq.
  destruct (violated' o); cbn [out_trace]; [rewrite srands_app, H|exact H];
    reflexivity.
Qed.

Lemma calls_final_trace o now : calls (final_trace' o now) = [].
Proof.
  unfold final_trace. rewrite !calls_app, !calls_diag.
  rewrite (proj1 (proj2 (range_events_shape o))). reflexivity.
Qed.

(** The options at the end of the body, field by field. *)
Lemma final_opts_fields o now :
  final_opts' o now
  = with_derived o (analyze_range (range_opts strtod o))
      (Z.max 1 (n_threads o)) (derived_seed strtod o now).
Proof.
  unfold final_opts, threads_opts, with_derived.
  assert (Hr : range_opts strtod o = o
               \/ exists r, range_opts strtod o = set_analyze_range o r).
  { unfold range_opts. destruct (negb _); [|now left]. unfold strsep.
    destruct (split_token _ _) as [tok [en|]]; [right; eexists; reflexivity|now left]. }
  destruct Hr as [-> | [r ->]];
    cbn [n_threads set_analyze_range];
    (destruct (Z.ltb_spec (n_threads o) 1) as [Hlt|Hge];
     [rewrite Z.max_l by lia | rewrite Z.max_r by lia]);
    destruct o; reflexivity.
Qed.

Lemma not_violated_validated o :
  violated' o = false -> validated N_RF_BOOTSTRAP (with_derived o (analyze_range o) (Z.max 1 (n_threads o)) (random_seed o)).
Proof.
  unfold violated, validated, missing_out_of_range, bootstrap_out_of_range.
  rewrite !orb_false_iff, !String.eqb_neq, !Z.leb_gt, !Z.ltb_ge.
  intros H. decompose [and] H. clear H.
  change (range_malformed (with_derived o (analyze_range o)
                             (Z.max 1 (n_threads o)) (random_seed o)))
    with (range_malformed o).
  cbn [with_derived qvcf_fname rvcf_fname genetic_fname class_fname
         output_basename chromosome maximum_missing_data_freq rf_window_size
         crf_spacing n_generations n_trees bootstrap_mode n_threads].
  repeat split; try assumption; lia.
Qed.

Lemma final_opts_validated o now :
  violated' o = false -> validated N_RF_BOOTSTRAP (final_opts' o now).
Proof.
  intros Hv. rewrite final_opts_fields.
  apply not_violated_validated in Hv.
  unfold validated in *.
  change (range_malformed (with_derived o (analyze_range (range_opts strtod o))
                             (Z.max 1 (n_threads o)) (derived_seed strtod o now)))
    with (range_malformed o).
  change (range_malformed (with_derived o (analyze_range o)
                             (Z.max 1 (n_threads o)) (random_seed o)))
    with (range_malformed o) in Hv.
  exact Hv.
Qed.

(** When [verify_options] returns, the options it leaves satisfy every
    range it checks, and the thread count is at least 1. *)
Theorem returned_options_validated o now o' tr :
  verify_options' o now = Returned o' tr -> validated N_RF_BOOTSTRAP o'.
Proof.
  rewrite verify_options_eq. destruct (violated' o) eqn:Hv; [discriminate|].
  intros H. inversion H; subst o' tr; clear H.
  now apply final_opts_validated.
Qed.

(** [verify_options] assigns [analyze_range], [n_threads] and [random_seed]
    and nothing else: every other option comes back as it was given. *)
Theorem returned_options_frame o now o' tr :
  verify_options' o now = Returned o' tr ->
  o' = with_derived o (analyze_range o') (n_threads o') (random_seed o').
Proof.
  rewrite verify_options_eq. destruct (violated' o); [discriminate|].
  intros H. inversion H; subst o' tr; clear H.
  rewrite final_opts_fields. reflexivity.
Qed.

Lemma range_opts_again o n sd :
  analyze_range
    (range_opts strtod
       (with_derived o (analyze_range (range_opts strtod o)) n sd))
  = analyze_range (range_opts strtod o).
Proof.
  unfold range_opts. cbn [analyze_str with_derived].
  destruct (negb (analyze_str o =? "")%string); [|reflexivity].
  unfold strsep. destruct (split_token _ _) as [tok [en|]]; reflexivity.
Qed.

(** Validation is idempotent: run again on the options it returned (at the
    same clock reading) it returns them unchanged, with the same trace. *)
Theorem verify_options_idempotent o now o' tr :
  verify_options N_RF_BOOTSTRAP strtod o now = Returned o' tr ->
  verify_options N_RF_BOOTSTRAP strtod o' now = Returned o' tr.
Proof.
  rewrite verify_options_eq. destruct (violated' o) eqn:Hv; [discriminate|].
  intros H. inversion H; subst o' tr; clear H.
  rewrite (final_opts_fields o now).
  set (o1 := with_derived o (analyze_range (range_opts strtod o))
               (Z.max 1 (n_threads o)) (derived_seed strtod o now)).
  rewrite verify_options_eq.
  change (violated' o1) with (violated' o). rewrite Hv.
  change (final_trace' o1 now) with (final_trace' o now).
  f_equal. rewrite final_opts_fields.
  unfold o1 at 2. rewrite range_opts_again.
  change (derived_seed strtod o1 now) with (derived_seed strtod o now).
  change (n_threads o1) with (Z.max 1 (n_threads o)).
  rewrite (Z.max_r 1 (Z.max 1 (n_threads o))) by lia.
  reflexivity.
Qed.

(** *** The analysis range *)

Lemma split_token_first a b :
  mem_ascii "-" a = false ->
  split_token (a ++ String "-" b) "-" = (a, Some b).
Proof.
  induction a as [|c a IH]; intros H; [reflexivity|].
  cbn [mem_ascii] in H. apply orb_false_iff in H. destruct H as [Hc Ha].
  cbn [append split_token mem_ascii].
  rewrite Ascii.eqb_sym, Hc. cbn [orb]. rewrite (IH Ha). reflexivity.
Qed.

Lemma split_token_none s :
  mem_ascii "-" s = false -> split_token s "-" = (s, None).
Proof.
  induction s as [|c s IH]; intros H; [reflexivity|].
  cbn [mem_ascii] in H. apply orb_false_iff in H. destruct H as [Hc Hs].
  cbn [split_token mem_ascii].
  rewrite Ascii.eqb_sym, Hc. cbn [orb]. rewrite (IH Hs). reflexivity.
Qed.

(** A range string is cut at its first [-]: what precedes it is the start
    and everything after it, further dashes included, is the end; both are
    scaled by 1e6 and converted to [int], the NOTICE line is printed and no
    range diagnostic is.  A string that begins with [-] has the empty
    string as its start. *)
Theorem analyze_range_split_at_first_dash o now a b :
  mem_ascii "-" a = false ->
  analyze_str o = (a ++ "-" ++ b)%string ->
  let s := verify_checks' now (entry o) in
  let lo := int_of_float (strtod a * 1e6)%float in
  let hi := int_of_float (strtod b * 1e6)%float in
  analyze_range (vs_opts s) = (lo, hi)
  /\ In (Enotice lo hi) (vs_trace s)
  /\ ~ In (Eprint msg_range) (vs_trace s).
Proof.
  intros Ha Hs. cbv zeta. unfold entry. rewrite verify_checks_eq.
  cbn [vs_opts vs_trace].
  change (a ++ "-" ++ b)%string with (a ++ String "-" b)%string in Hs.
  assert (Hne : negb (analyze_str o =? "")%string = true).
  { rewrite Hs. destruct a; reflexivity. }
  split; [|split].
  - rewrite final_opts_fields. cbn [analyze_range with_derived].
    unfold range_opts, strsep. rewrite Hne, Hs, (split_token_first a b Ha).
    reflexivity.
  - unfold final_trace. rewrite !in_app_iff. do 11 right. left.
    unfold range_events, strsep. rewrite Hne, Hs, (split_token_first a b Ha).
    left. reflexivity.
  - assert (Hm : range_malformed o = false).
    { unfold range_malformed, strsep.
      rewrite Hs, (split_token_first a b Ha). apply andb_false_r. }
    rewrite in_final_trace_print. unfold checks. simpl In. rewrite Hm.
    intros H.
    do 11 (destruct H as [H|H];
           [exfalso; inversion H as [[Hc Hmsg]]; revert Hmsg;
            apply String.eqb_neq; vm_compute; reflexivity|]).
    destruct H as [H|H]; [discriminate|].
    destruct H as [H|[]].
    exfalso; inversion H as [[Hc Hmsg]]; revert Hmsg;
      apply String.eqb_neq; vm_compute; reflexivity.
Qed.

(** Without a [-] the range keeps the value it had ([INT_MIN] to [INT_MAX]
    after [init_options]); when the string is not empty the range diagnostic
    is printed and [verify_options] exits. *)
Theorem analyze_range_kept_without_dash o now :
  mem_ascii "-" (analyze_str o) = false ->
  analyze_range (vs_opts (verify_checks' now (entry o))) = analyze_range o
  /\ (analyze_str o <> ""%string ->
      In (Eprint msg_range) (out_trace (verify_options' o now))
      /\ has_exited (verify_options' o now) = true).
Proof.
  intros H. unfold entry. rewrite verify_checks_eq. cbn [vs_opts].
  split.
  - rewrite final_opts_fields. cbn [analyze_range with_derived].
    unfold range_opts, strsep. rewrite (split_token_none _ H).
    destruct (negb _); reflexivity.
  - intros Hne.
    assert (Hm : range_malformed o = true).
    { unfold range_malformed, strsep. rewrite (split_token_none _ H).
      apply String.eqb_neq in Hne. rewrite Hne. reflexivity. }
    assert (Hv : violated' o = true).
    { apply config_error_violated. unfold config_error. tauto. }
    rewrite (violated_exits N_RF_BOOTSTRAP strtod o now Hv).
    split; [|reflexivity]. cbn [out_trace]. apply in_or_app; left.
    apply in_final_trace_print. unfold checks. simpl In. rewrite Hm. tauto.
Qed.

(** *** [main], end to end *)

Variable cmdline_getoptions : list string -> rfmix_opts_t -> rfmix_opts_t.

Abbreviation rfmix_main' := (main N_RF_BOOTSTRAP strtod cmdline_getoptions).

(** The stages run all or none: when a check fails [main] exits with -1
    having called no stage; otherwise it returns 0 having called the seven
    stages once each in the order of the code, on options that satisfy
    every range [verify_options] checks. *)
Theorem main_all_or_nothing argv nprocs now :
  let o := cmdline_getoptions argv (init_options nprocs) in
  (violated' o = true ->
   exists tr, rfmix_main' argv nprocs now = Exited (-1) tr /\ calls tr = [])
  /\ (violated' o = false ->
      exists tr,
        rfmix_main' argv nprocs now = Returned 0 tr
        /\ calls tr = stage_order
        /\ prints tr = [nl]
        /\ validated N_RF_BOOTSTRAP (final_opts' o now)).
Proof.
  intros o. unfold main. fold o. rewrite verify_options_eq.
  split; intros Hv; rewrite Hv.
  - eexists. split; [reflexivity|].
    rewrite calls_app, calls_final_trace. reflexivity.
  - eexists. split; [reflexivity|]. split; [|split].
    + rewrite calls_app, calls_final_trace. reflexivity.
    + rewrite prints_app, prints_final_trace.
      assert (Hf : map snd (filter fst (checks' o)) = []).
      { revert Hv. unfold violated, checks. rewrite !orb_false_iff.
        intros H. decompose [and] H. clear H.
        rewrite !failing_cons.
        repeat match goal with Hc : _ = false |- _ => rewrite Hc; clear Hc end.
        reflexivity. }
      rewrite Hf. reflexivity.
    + now apply final_opts_validated.
Qed.

End OptionsExtras.

(** ** More about the codec *)

Section CodecExtras.

Local Open Scope R_scope.

Lemma Ztrunc_IZR z : Ztrunc (IZR z) = z.
Proof.
  destruct (Rlt_dec (IZR z) 0) as [H|H].
  - rewrite Ztrunc_neg by exact H. unfold Zceil.
    rewrite ZfloorNZ. lia.
  - rewrite Ztrunc_nonneg by lra. apply ZfloorZ.
Qed.

Lemma ln_ge_of_exp_le x B : exp B <= x -> B <= ln x.
Proof.
  intros H. rewrite <- (ln_exp B). apply ln_mono; [apply exp_pos|exact H].
Qed.

Lemma ln_le_of_le_exp x B : 0 < x -> x <= exp B -> ln x <= B.
Proof. intros Hx H. rewrite <- (ln_exp B). now apply ln_mono. Qed.

Lemma odds_ge p B : 0 < p -> B * p <= 1 - p -> B <= (1 - p) / p.
Proof.
  intros Hp H. apply Rmult_le_reg_r with p; [exact Hp|].
  unfold Rdiv. rewrite Rmult_assoc, Rinv_l, Rmult_1_r by lra. exact H.
Qed.

Lemma odds_le p B : 0 < p -> 1 - p <= B * p -> (1 - p) / p <= B.
Proof.
  intros Hp H. apply Rmult_le_reg_r with p; [exact Hp|].
  unfold Rdiv. rewrite Rmult_assoc, Rinv_l, Rmult_1_r by lra. exact H.
Qed.

Lemma exp_m32767_1024_lower :
  126765 / 9999999999999873235 <= exp (-32767 / 1024).
Proof. apply (exp_ge_check_sound 200 48). vm_compute. reflexivity. Qed.

Lemma exp_m127_12_upper : exp (-127 / 12) <= 1 / 33333.
Proof.
  replace (-127 / 12) with (- (127 / 12)) by lra. rewrite exp_Ropp.
  unfold Rdiv. rewrite Rmult_1_l.
  apply Rinv_le_contravar; [lra | apply exp_127_12_lower].
Qed.

(** The scaled log-odds of a probability at or beyond the representable
    ends. *)
Lemma scaled_odds_low k p B :
  0 < k -> 0 < p < 1 -> exp B <= (1 - p) / p -> - k * ln ((1 - p) / p) <= - (k * B).
Proof.
  intros Hk Hp H. apply ln_ge_of_exp_le in H. nra.
Qed.

Lemma scaled_odds_high k p B :
  0 < k -> 0 < p < 1 -> (1 - p) / p <= exp (- B) -> k * B <= - k * ln ((1 - p) / p).
Proof.
  intros Hk Hp H. apply ln_le_of_le_exp in H; [nra | now apply odds_pos].
Qed.

Lemma encoder_low p :
  open_unit p ->
  (p <= 0.000025 -> ef8 (Fin p) = Some (-127)%Z)
  /\ (p <= 1.26e-14 -> ef16 (Fin p) = Some (-32767)%Z).
Proof.
  intros Hp. destruct (open_unit_interior p Hp) as [H0 H1].
  rewrite ef8_eval, ef16_eval by exact Hp.
  split; intros Hr; f_equal.
  - assert (Hx : -12 * ln ((1 - p) / p) <= IZR (-127)).
    { replace (IZR (-127)) with (- (12 * (127 / 12))) by lra.
      apply (scaled_odds_low 12); [lra|lra|].
      apply Rle_trans with (999974666 / 25334); [apply exp_127_12_upper|].
      apply odds_ge; lra. }
    apply Ztrunc_le in Hx. rewrite Ztrunc_IZR in Hx. lia.
  - assert (Hx : -1024 * ln ((1 - p) / p) <= IZR (-32767)).
    { replace (IZR (-32767)) with (- (1024 * (32767 / 1024))) by lra.
      apply (scaled_odds_low 1024); [lra|lra|].
      apply Rle_trans with (9999999999999873235 / 126765);
        [apply exp_32767_1024_upper|].
      apply odds_ge; lra. }
    apply Ztrunc_le in Hx. rewrite Ztrunc_IZR in Hx. lia.
Qed.

(** A normal double at or below the least representable value is encoded
    as the least code, and one at or above the greatest as the greatest
    code: on the normal doubles of (0,1) the clamps do saturate. *)
Theorem encoder_saturates p :
  open_unit p ->
  (p <= 0.000025 -> ef8 (Fin p) = Some (-127)%Z)
  /\ (0.999975 <= p -> ef8 (Fin p) = Some 127%Z)
  /\ (p <= 1.26e-14 -> ef16 (Fin p) = Some (-32767)%Z)
  /\ (1 - 1.26e-14 <= p -> ef16 (Fin p) = Some 32767%Z).
Proof.
  intros Hp. destruct (open_unit_interior p Hp) as [H0 H1].
  destruct (encoder_low p Hp) as [L8 L16].
  split; [exact L8|]. split; [|split; [exact L16|]].
  all: rewrite ?ef8_eval, ?ef16_eval by exact Hp.
  all: intros Hr; f_equal.
  - assert (Hx : IZR 127 <= -12 * ln ((1 - p) / p)).
    { replace (IZR 127) with (12 * (127 / 12)) by lra.
      apply (scaled_odds_high 12); [lra|lra|].
      apply Rle_trans with (253 / 9999747).
      - apply odds_le; lra.
      - replace (- (127 / 12)) with (-127 / 12) by lra. apply exp_m127_12_lower. }
    apply Ztrunc_le in Hx. rewrite Ztrunc_IZR in Hx. lia.
  - assert (Hx : IZR 32767 <= -1024 * ln ((1 - p) / p)).
    { replace (IZR 32767) with (1024 * (32767 / 1024)) by lra.
      apply (scaled_odds_high 1024); [lra|lra|].
      apply Rle_trans with (126765 / 9999999999999873235).
      - apply odds_le; lra.
      - replace (- (32767 / 1024)) with (-32767 / 1024) by lra.
        apply exp_m32767_1024_lower. }
    apply Ztrunc_le in Hx. rewrite Ztrunc_IZR in Hx. lia.
Qed.

(** The scaled log-odds when the odds are within a factor [1 + 1/k] of 1. *)
Lemma scaled_odds_small k p :
  0 < k -> 0 < p < 1 ->
  / (1 + 1 / k) <= (1 - p) / p <= 1 + 1 / k ->
  -1 < - k * ln ((1 - p) / p) < 1.
Proof.
  intros Hk Hp [Hlo Hhi].
  assert (Hik : 0 < 1 / k) by (apply Rdiv_lt_0_compat; lra).
  assert (He : 1 + 1 / k < exp (1 / k)) by (apply exp_ineq1; lra).
  assert (Hq := odds_pos p Hp).
  assert (Hup : ln ((1 - p) / p) < 1 / k).
  { rewrite <- (ln_exp (1 / k)). apply ln_increasing; lra. }
  assert (Hdn : - (1 / k) < ln ((1 - p) / p)).
  { rewrite <- (ln_exp (- (1 / k))). apply ln_increasing; [apply exp_pos|].
    rewrite exp_Ropp.
    apply Rlt_le_trans with (/ (1 + 1 / k)); [|exact Hlo].
    apply Rinv_lt_contravar; [|exact He].
    apply Rmult_lt_0_compat; lra. }
  assert (Hk1 : k * (1 / k) = 1) by (field; lra).
  split; nra.
Qed.

(** Truncation toward zero gives the code 0 a bin twice as wide as any
    other: every probability from 0.48 to 0.52 has the 8-bit code 0, and
    every one from 0.49976 to 0.50024 the 16-bit code 0. *)
Theorem zero_code_bin p :
  (0.48 <= p <= 0.52 -> ef8 (Fin p) = Some 0%Z)
  /\ (0.49976 <= p <= 0.50024 -> ef16 (Fin p) = Some 0%Z).
Proof.
  split; intros Hr.
  - rewrite ef8_eval by (apply open_unit_decimal; lra).
    rewrite (Ztrunc_small_abs (-12 * ln ((1 - p) / p))); [reflexivity|].
    apply (scaled_odds_small 12); [lra|lra|].
    replace (/ (1 + 1 / 12)) with (12 / 13) by lra.
    split; [apply odds_ge | apply odds_le]; lra.
  - rewrite ef16_eval by (apply open_unit_decimal; lra).
    rewrite (Ztrunc_small_abs (-1024 * ln ((1 - p) / p))); [reflexivity|].
    apply (scaled_odds_small 1024); [lra|lra|].
    replace (/ (1 + 1 / 1024)) with (1024 / 1025) by lra.
    split; [apply odds_ge | apply odds_le]; lra.
Qed.

(** Where the truncated, clamped code lies, and what it decodes to. *)
Lemma clamped_code_toward_zero k (hi : Z) p :
  0 < k -> (0 < hi)%Z -> 0 < p < 1 ->
  let x := - k * ln ((1 - p) / p) in
  let c := Z.min hi (Z.max (- hi) (Ztrunc x)) in
  (1 / 2 <= p -> (0 <= c)%Z /\ 1 / 2 <= logistic (IZR c / k) <= p)
  /\ (p <= 1 / 2 -> (c <= 0)%Z /\ p <= logistic (IZR c / k) <= 1 / 2).
Proof.
  intros Hk Hhi Hp x c.
  assert (Hq := odds_pos p Hp).
  assert (Hpx : p = logistic (x / k)).
  { rewrite <- (logistic_logit p Hp) at 1. f_equal. unfold logit, x. field. lra. }
  assert (Hik : 0 < / k) by now apply Rinv_0_lt_compat.
  split; intros Hh.
  - assert (Hln : ln ((1 - p) / p) <= 0).
    { rewrite <- ln_1. apply ln_mono; [exact Hq | apply odds_le; lra]. }
    assert (Hx : 0 <= x) by (unfold x; nra).
    assert (Ht := proj1 (Ztrunc_sign x) Hx).
    destruct (proj1 (Ztrunc_spec x) Hx) as [Htx _].
    assert (Hc : (0 <= c <= Ztrunc x)%Z) by (unfold c; lia).
    split; [lia|]. rewrite <- logistic_0. rewrite Hpx at 1.
    destruct Hc as [Hc0 Hct]. apply IZR_le in Hc0, Hct.
    split; apply logistic_mono.
    + apply Rmult_le_pos; lra.
    + apply Rmult_le_compat_r; lra.
  - assert (Hln : 0 <= ln ((1 - p) / p)).
    { rewrite <- ln_1. apply ln_mono; [lra | apply odds_ge; lra]. }
    assert (Hx : x <= 0) by (unfold x; nra).
    assert (Ht := proj2 (Ztrunc_sign x) Hx).
    assert (Htx : x <= IZR (Ztrunc x)).
    { destruct (Req_dec x 0) as [Hx0|Hx0].
      - rewrite Hx0, Ztrunc_0. simpl. lra.
      - apply (proj2 (Ztrunc_spec x)). lra. }
    assert (Hc : (Ztrunc x <= c <= 0)%Z) by (unfold c; lia).
    split; [lia|]. rewrite <- logistic_0. rewrite Hpx at 1.
    destruct Hc as [Hct Hc0]. apply IZR_le in Hc0, Hct.
    split; apply logistic_mono.
    + apply Rmult_le_compat_r; lra.
    + replace 0 with (0 * / k) by ring. apply Rmult_le_compat_r; lra.
Qed.

(** Encoding then decoding never moves a probability across 1/2, and
    never away from 1/2 by more than 1e-12: the sign of the code tells on
    which side of 1/2 the probability is, and the decoded value lies
    between 1/2 and the probability (exactly so in exact arithmetic; the
    margin is what the rounding of binary64 can add). *)
Theorem roundtrip_shrinks_toward_half p :
  open_unit p ->
  exists c v c' v',
    ef8 (Fin p) = Some c /\ DF8 c = Fin v
    /\ ef16 (Fin p) = Some c' /\ DF16 c' = Fin v'
    /\ (1 / 2 <= p ->
        (0 <= c)%Z /\ (0 <= c')%Z
        /\ 1 / 2 <= v <= p + 1e-12 /\ 1 / 2 <= v' <= p + 1e-12)
    /\ (p <= 1 / 2 ->
        (c <= 0)%Z /\ (c' <= 0)%Z
        /\ p - 1e-12 <= v <= 1 / 2 /\ p - 1e-12 <= v' <= 1 / 2).
Proof.
  intros Hp. destruct (open_unit_interior p Hp) as [H0 H1].
  rewrite ef8_eval, ef16_eval by exact Hp.
  pose (c8 := Z.min 127 (Z.max (-127) (Ztrunc (-12 * ln ((1 - p) / p))))).
  pose (c16 := Z.min 32767 (Z.max (-32767) (Ztrunc (-1024 * ln ((1 - p) / p))))).
  exists c8, (logistic (IZR c8 / 12)), c16, (logistic (IZR c16 / 1024)).
  rewrite DF8_eval, DF16_eval by (unfold c8, c16; lia).
  repeat (split; [reflexivity|]).
  assert (A8 : (1 / 2 <= p -> (0 <= c8)%Z /\ 1 / 2 <= logistic (IZR c8 / 12) <= p)
               /\ (p <= 1 / 2 -> (c8 <= 0)%Z /\ p <= logistic (IZR c8 / 12) <= 1 / 2))
    by (apply (clamped_code_toward_zero 12 127 p); [lra|lia|lra]).
  assert (A16 : (1 / 2 <= p -> (0 <= c16)%Z /\ 1 / 2 <= logistic (IZR c16 / 1024) <= p)
                /\ (p <= 1 / 2 -> (c16 <= 0)%Z /\ p <= logistic (IZR c16 / 1024) <= 1 / 2))
    by (apply (clamped_code_toward_zero 1024 32767 p); [lra|lia|lra]).
  clearbody c8 c16.
  split; intros Hh.
  - destruct (proj1 A8 Hh) as [? ?]. destruct (proj1 A16 Hh) as [? ?].
    repeat split; try assumption; lra.
  - destruct (proj2 A8 Hh) as [? ?]. destruct (proj2 A16 Hh) as [? ?].
    repeat split; try assumption; lra.
Qed.

(** The round-trip error of a codec of scale [k] clamped at [hi], over all
    of (0,1): within the clamp it is the truncation error, beyond it the
    probability and the decoded extreme are both within [bound] of 0 or 1. *)
Lemma roundtrip_clamped k (hi : Z) p bound :
  0 < k -> (0 < hi)%Z -> 0 < p < 1 ->
  1 / (4 * k) <= bound ->
  logistic (- (IZR hi / k)) <= bound ->
  Rabs (logistic (IZR (Z.min hi (Z.max (- hi) (Ztrunc (- k * ln ((1 - p) / p))))) / k)
        - p) <= bound.
Proof.
  intros Hk Hhi Hp Hb Hext.
  set (x := - k * ln ((1 - p) / p)).
  destruct (Z_le_gt_dec (- hi) (Ztrunc x)) as [Hlo|Hlo];
    [destruct (Z_le_gt_dec (Ztrunc x) hi) as [Hup|Hup]|].
  - rewrite Z.max_r, Z.min_r by lia.
    apply Rle_trans with (1 / (4 * k)); [|exact Hb].
    now apply roundtrip_truncation.
  - rewrite Z.max_r, Z.min_l by lia.
    assert (Hpx : p = logistic (x / k)).
    { rewrite <- (logistic_logit p Hp) at 1. f_equal. unfold logit, x. field. lra. }
    assert (Hx : IZR hi <= x).
    { destruct (Rlt_dec x 0) as [Hn|Hn].
      - assert (Ht := proj2 (Ztrunc_sign x) (Rlt_le _ _ Hn)). lia.
      - destruct (proj1 (Ztrunc_spec x)) as [Htx _]; [lra|].
        apply Rle_trans with (IZR (Ztrunc x)); [apply IZR_le; lia|exact Htx]. }
    assert (Hm : logistic (IZR hi / k) <= p).
    { rewrite Hpx. apply logistic_mono.
      apply Rmult_le_compat_r; [left; now apply Rinv_0_lt_compat|exact Hx]. }
    rewrite logistic_opp in Hext.
    rewrite Rabs_left1 by lra. lra.
  - rewrite Z.max_l, Z.min_r by lia.
    assert (Hpx : p = logistic (x / k)).
    { rewrite <- (logistic_logit p Hp) at 1. f_equal. unfold logit, x. field. lra. }
    assert (Hx : x <= IZR (- hi)).
    { destruct (Rlt_dec x 0) as [Hn|Hn].
      - destruct (proj2 (Ztrunc_spec x) Hn) as [_ Htx].
        apply Rle_trans with (IZR (Ztrunc x)); [exact Htx|apply IZR_le; lia].
      - assert (Ht := proj1 (Ztrunc_sign x)). 
        assert (0 <= Ztrunc x)%Z by (apply Ht; lra). lia. }
    assert (Hm : p <= logistic (IZR (- hi) / k)).
    { rewrite Hpx. apply logistic_mono.
      apply Rmult_le_compat_r; [left; now apply Rinv_0_lt_compat|exact Hx]. }
    rewrite opp_IZR in *.
    replace (- IZR hi / k) with (- (IZR hi / k)) in * by (unfold Rdiv; ring).
    rewrite Rabs_right by lra. lra.
Qed.

(** The bounds 1/48 and 1/4096 on the round-trip error hold for every
    normal double strictly between 0 and 1, the clamped ones included. *)
Theorem roundtrip_error_everywhere p :
  open_unit p ->
  (exists e, roundtrip8 p = Some e /\ e <= 1 / 48)
  /\ (exists e, roundtrip16 p = Some e /\ e <= 1 / 4096).
Proof.
  intros Hp. destruct (open_unit_interior p Hp) as [H0 H1].
  unfold roundtrip8, roundtrip16.
  rewrite ef8_eval, ef16_eval by exact Hp. rewrite DF8_eval, DF16_eval by lia.
  split; eexists; (split; [reflexivity|]).
  - apply (roundtrip_clamped 12 127); [lra|lia|lra|lra|].
    apply Rle_trans with (1 / (1 + 33333)); [|lra].
    apply logistic_le_of_exp_ge; [lra|].
    rewrite Ropp_involutive. apply exp_127_12_lower.
  - apply (roundtrip_clamped 1024 32767); [lra|lia|lra|lra|].
    apply Rle_trans with (1 / (1 + 9999999999999873234 / 126766)); [|lra].
    apply logistic_le_of_exp_ge; [lra|].
    rewrite Ropp_involutive. apply exp_32767_1024_lower.
Qed.

Lemma logistic_strict a b : a < b -> logistic a < logistic b.
Proof.
  intros H. unfold logistic.
  assert (Ha := exp_pos (- a)). assert (Hb := exp_pos (- b)).
  assert (He : exp (- b) < exp (- a)) by (apply exp_increasing; lra).
  unfold Rdiv. rewrite !Rmult_1_l.
  apply Rinv_lt_contravar; [|lra]. apply Rmult_lt_0_compat; lra.
Qed.

(** On the codes their arrays can hold, both decoders are monotone and
    yield values strictly between 0 and 1; the 8-bit decoder is strictly
    monotone, so distinct 8-bit codes stand for distinct probabilities. *)
Theorem decoders_monotone x y :
  ((-128 <= x <= y)%Z -> (y <= 127)%Z ->
   exists vx vy,
     DF8 x = Fin vx /\ DF8 y = Fin vy
     /\ 0 < vx <= vy /\ vy < 1 /\ (vx = vy -> x = y))
  /\ ((-32768 <= x <= y)%Z -> (y <= 32767)%Z ->
      exists wx wy,
        DF16 x = Fin wx /\ DF16 y = Fin wy /\ 0 < wx <= wy /\ wy < 1).
Proof.
  split; intros [Hlo Hxy] Hhi.
  - rewrite !DF8_eval by lia.
    do 2 eexists. repeat (split; [reflexivity|]).
    apply IZR_le in Hxy.
    repeat split; try apply logistic_range.
    + apply logistic_mono. lra.
    + intros Heq. apply eq_IZR.
      destruct (Rtotal_order (IZR x) (IZR y)) as [Hlt|[Heq'|Hgt]];
        [|exact Heq'|lra].
      assert (Hs : logistic (IZR x / 12) < logistic (IZR y / 12))
        by (apply logistic_strict; lra).
      lra.
  - rewrite !DF16_eval by lia.
    do 2 eexists. repeat (split; [reflexivity|]).
    apply IZR_le in Hxy.
    repeat split; try apply logistic_range.
    apply logistic_mono. lra.
Qed.

(** The macros [EF8] and [EF16] are the encoders without the clamp: on a
    normal double strictly between 0 and 1 the inline functions return the
    macro's value brought into the code range, and on [0.00003, 0.99997]
    the two agree. *)
Theorem macros_are_unclamped_encoders p :
  open_unit p ->
  exists t t',
    EF8 (Fin p) = Some t /\ ef8 (Fin p) = Some (Z.min 127 (Z.max (-127) t))
    /\ EF16 (Fin p) = Some t'
    /\ ef16 (Fin p) = Some (Z.min 32767 (Z.max (-32767) t'))
    /\ (0.00003 <= p <= 0.99997 ->
        ef8 (Fin p) = EF8 (Fin p) /\ ef16 (Fin p) = EF16 (Fin p)).
Proof.
  intros Hp. destruct (open_unit_interior p Hp) as [H0 H1].
  rewrite ef8_eval, ef16_eval by exact Hp.
  unfold EF8, EF16, double_of_int.
  rewrite !scaled_odds_int by (try exact Hp; rewrite Rabs_left; lra).
  do 2 eexists. repeat (split; [reflexivity|]).
  intros Hr. destruct (ln_odds_decimal p Hr) as [Hlo Hhi].
  assert (H8 : (-127 <= Ztrunc (-12 * ln ((1 - p) / p)) <= 127)%Z)
    by (apply (Ztrunc_bound _ 127); lra).
  assert (H16 : (-32767 <= Ztrunc (-1024 * ln ((1 - p) / p)) <= 32767)%Z)
    by (apply (Ztrunc_bound _ 32767); lra).
  split; f_equal; lia.
Qed.

(** Below the range of the normal doubles the division [(1 - p) / p]
    overflows: for every positive [p] up to [2^-1024] the log-odds are
    infinite and the conversion to [int] has no defined result, as for 0. *)
Theorem encoder_undefined_on_tiny p :
  0 < p <= / 2 ^ 1024 -> ef8 (Fin p) = None /\ ef16 (Fin p) = None.
Proof.
  intros [H0 Hp].
  assert (Hi : / 2 ^ 1024 <= / 2 ^ 1) by (apply pow2_inv_le; lia).
  assert (H2 : / 2 ^ 1 = / 2) by (simpl; f_equal; ring).
  assert (Hsub : dsub (Fin 1) (Fin p) = Fin (1 - p)).
  { cbn [dsub dneg dadd]. fold (1 - p).
    apply (fin_between 1 0); try lia.
    rewrite Rabs_right by lra. simpl pow at 2. lra. }
  assert (Hover : DBL_OVER <= (1 - p) / p).
  { assert (HB : 0 < 2 ^ 1024) by apply pow2_pos.
    assert (Hd : DBL_OVER <= 2 ^ 1024 - 1).
    { unfold DBL_OVER. rewrite pow_IZR, <- minus_IZR.
      apply IZR_le. vm_compute. discriminate. }
    assert (Hip : 2 ^ 1024 <= / p).
    { rewrite <- (Rinv_inv (2 ^ 1024)). apply Rinv_le_contravar; lra. }
    replace ((1 - p) / p) with (/ p - 1) by (field; lra). lra. }
  assert (Hdiv : ddiv (dsub (Fin 1) (Fin p)) (Fin p) = PInf).
  { rewrite Hsub. cbn [ddiv]. rewrite (Rsign_pos p) by lra.
    unfold fin.
    assert (Hq : 0 < (1 - p) / p) by (apply odds_pos; lra).
    rewrite (Rabs_right ((1 - p) / p)) by lra.
    destruct (Rle_dec DBL_OVER ((1 - p) / p)) as [_|Hn]; [|contradiction].
    rewrite Rsign_pos by exact Hq. reflexivity. }
  unfold ef8, ef16. rewrite Hdiv. cbn [dlog dmul].
  rewrite !Rsign_neg by lra. split; reflexivity.
Qed.

End CodecExtras.

(** ** Flattened indexing *)

Lemma IDX_value n w s i : IDX n w s = Some i -> i = w * n + s.
Proof.
  unfold IDX, int_mul, int_add.
  destruct (in_int (w * n)); [|discriminate].
  destruct (in_int (w * n + s)); [|discriminate].
  now intros [= <-].
Qed.

Lemma IDX_eval n W w s :
  0 < n -> 0 <= w < W -> 0 <= s < n -> W * n <= INT_MAX ->
  IDX n w s = Some (w * n + s).
Proof.
  intros Hn Hw Hs HW.
  unfold IDX, int_mul, int_add, in_int, INT_MIN, INT_MAX in *.
  replace ((-2147483648 <=? w * n) && (w * n <=? 2147483647)) with true
    by (symmetry; apply andb_true_iff; split; apply Z.leb_le; nia).
  replace ((-2147483648 <=? w * n + s) && (w * n + s <=? 2147483647)) with true
    by (symmetry; apply andb_true_iff; split; apply Z.leb_le; nia).
  reflexivity.
Qed.

(** For a table of [W] windows by [n] subpopulations whose size fits an
    [int], the index of every cell is computed without overflow, falls
    inside the table, and gives the window and the subpopulation back by
    division and remainder. *)
Theorem IDX_in_bounds n W w s :
  0 < n -> 0 <= w < W -> 0 <= s < n -> W * n <= INT_MAX ->
  exists i,
    IDX n w s = Some i /\ 0 <= i < W * n /\ i / n = w /\ i mod n = s.
Proof.
  intros Hn Hw Hs HW. exists (w * n + s).
  split; [|split; [nia|split]].
  - now apply (IDX_eval n W).
  - rewrite Z.div_add_l by lia. rewrite Z.div_small by lia. lia.
  - rewrite Z.add_comm, Z.mod_add by lia. apply Z.mod_small. lia.
Qed.

(** Two cells with the same index are the same cell. *)
Theorem IDX_injective n w s w' s' i :
  0 <= s < n -> 0 <= s' < n ->
  IDX n w s = Some i -> IDX n w' s' = Some i ->
  w = w' /\ s = s'.
Proof.
  intros Hs Hs' H H'. apply IDX_value in H, H'. subst i.
  assert (Hw : w = w') by nia. subst w'. split; [reflexivity|lia].
Qed.

(** Every position of the flat array is the index of a cell: the table is
    laid out window after window without gaps, the subpopulations of one
    window side by side. *)
Theorem IDX_onto n W i :
  0 < n -> 0 <= i < W * n -> W * n <= INT_MAX ->
  0 <= i / n < W /\ 0 <= i mod n < n /\ IDX n (i / n) (i mod n) = Some i.
Proof.
  intros Hn Hi HW.
  assert (Hm := Z.mod_pos_bound i n Hn).
  assert (Hd : i = n * (i / n) + i mod n) by (apply Z.div_mod; lia).
  assert (Hq : 0 <= i / n < W).
  { split; [apply Z.div_pos; lia|]. apply Z.div_lt_upper_bound; lia. }
  split; [exact Hq|split; [exact Hm|]].
  rewrite (IDX_eval n W (i / n) (i mod n) Hn Hq Hm HW). f_equal. lia.
Qed.

(** ** Instances for the further properties *)

Lemma returned_options_validated_witness :
  validated 3 (final_opts strtod_digits sample_opts 0).
Proof.
  apply (returned_options_validated 3 strtod_digits sample_opts 0 _
           (final_trace 3 strtod_digits sample_opts 0)).
  vm_compute. reflexivity.
Defined.

Lemma returned_options_frame_witness :
  final_opts strtod_digits (set_n_threads sample_opts 0) 0
  = with_derived (set_n_threads sample_opts 0)
      (analyze_range (final_opts strtod_digits (set_n_threads sample_opts 0) 0))
      (n_threads (final_opts strtod_digits (set_n_threads sample_opts 0) 0))
      (random_seed (final_opts strtod_digits (set_n_threads sample_opts 0) 0)).
Proof.
  apply (returned_options_frame 3 strtod_digits (set_n_threads sample_opts 0) 0 _
           (final_trace 3 strtod_digits (set_n_threads sample_opts 0) 0)).
  vm_compute. reflexivity.
Defined.

Lemma verify_options_idempotent_witness :
  verify_options 3 strtod_digits
    (final_opts strtod_digits (set_n_threads sample_opts 0) 0) 0
  = Returned (final_opts strtod_digits (set_n_threads sample_opts 0) 0)
      (final_trace 3 strtod_digits (set_n_threads sample_opts 0) 0).
Proof.
  apply (verify_options_idempotent 3 strtod_digits
           (set_n_threads sample_opts 0) 0).
  vm_compute. reflexivity.
Defined.

Lemma analyze_range_split_at_first_dash_witness :
  analyze_range
    (vs_opts (verify_checks 3 strtod_digits 0
                (entry (set_analyze_str sample_opts "12-34-5"))))
  = (int_of_float (strtod_digits "12" * 1e6)%float,
     int_of_float (strtod_digits "34-5" * 1e6)%float).
Proof.
  apply (analyze_range_split_at_first_dash 3 strtod_digits
           (set_analyze_str sample_opts "12-34-5") 0 "12" "34-5");
    reflexivity.
Defined.

Lemma analyze_range_kept_without_dash_witness :
  analyze_range
    (vs_opts (verify_checks 3 strtod_digits 0
                (entry (set_analyze_str sample_opts "12"))))
  = (Some INT_MIN, Some INT_MAX)
  /\ has_exited (verify_options 3 strtod_digits
                   (set_analyze_str sample_opts "12") 0) = true.
Proof.
  split.
  - apply (proj1 (analyze_range_kept_without_dash 3 strtod_digits
                    (set_analyze_str sample_opts "12") 0 eq_refl)).
  - apply (proj2 (analyze_range_kept_without_dash 3 strtod_digits
                    (set_analyze_str sample_opts "12") 0 eq_refl)).
    discriminate.
Defined.

Lemma main_all_or_nothing_witness :
  (exists tr,
     main 3 strtod_digits (fun _ o => o) [] 4 0 = Exited (-1) tr
     /\ calls tr = [])
  /\ (exists tr,
        main 3 strtod_digits (fun _ _ => sample_opts) [] 4 0 = Returned 0 tr
        /\ calls tr = stage_order
        /\ prints tr = [nl]
        /\ validated 3 (final_opts strtod_digits sample_opts 0)).
Proof.
  split.
  - apply (proj1 (main_all_or_nothing 3 strtod_digits (fun _ o => o) [] 4 0)).
    vm_compute. reflexivity.
  - apply (proj2 (main_all_or_nothing 3 strtod_digits
                    (fun _ _ => sample_opts) [] 4 0)).
    vm_compute. reflexivity.
Defined.

Lemma IDX_in_bounds_witness :
  exists i, IDX 5 2 3 = Some i /\ 0 <= i < 1000 * 5 /\ i / 5 = 2 /\ i mod 5 = 3.
Proof. apply (IDX_in_bounds 5 1000 2 3); vm_compute; intuition discriminate. Defined.

Lemma IDX_injective_witness : 2 = 2 /\ 3 = 3.
Proof.
  apply (IDX_injective 5 2 3 2 3 13); try reflexivity; lia.
Defined.

Lemma IDX_onto_witness :
  0 <= 13 / 5 < 1000 /\ 0 <= 13 mod 5 < 5 /\ IDX 5 (13 / 5) (13 mod 5) = Some 13.
Proof. apply (IDX_onto 5 1000 13); vm_compute; intuition discriminate. Defined.

Section CodecInstances.

Local Open Scope R_scope.




Lemma encoder_saturates_witness :
  ef8 (Fin 0.00001) = Some (-127)%Z /\ ef16 (Fin 1e-15) = Some (-32767)%Z.
Proof.
  split.
  - apply (proj1 (encoder_saturates 0.00001
                    ltac:(apply open_unit_wide; lra))).
    lra.
  - apply (proj1 (proj2 (proj2 (encoder_saturates 1e-15
                    ltac:(apply open_unit_wide; lra))))).
    lra.
Defined.

Lemma zero_code_bin_witness :
  ef8 (Fin 0.51) = Some 0%Z /\ ef16 (Fin 0.5001) = Some 0%Z.
Proof.
  split.
  - apply (proj1 (zero_code_bin 0.51)). lra.
  - apply (proj2 (zero_code_bin 0.5001)). lra.
Defined.

Lemma roundtrip_shrinks_toward_half_witness :
  exists c v c' v',
    ef8 (Fin 0.75) = Some c /\ DF8 c = Fin v
    /\ ef16 (Fin 0.75) = Some c' /\ DF16 c' = Fin v'
    /\ (1 / 2 <= 0.75 ->
        (0 <= c)%Z /\ (0 <= c')%Z
        /\ 1 / 2 <= v <= 0.75 + 1e-12 /\ 1 / 2 <= v' <= 0.75 + 1e-12)
    /\ (0.75 <= 1 / 2 ->
        (c <= 0)%Z /\ (c' <= 0)%Z
        /\ 0.75 - 1e-12 <= v <= 1 / 2 /\ 0.75 - 1e-12 <= v' <= 1 / 2).
Proof.
  apply (roundtrip_shrinks_toward_half 0.75).
  apply open_unit_decimal. lra.
Defined.

Lemma roundtrip_error_everywhere_witness :
  (exists e, roundtrip8 0.000001 = Some e /\ e <= 1 / 48)
  /\ (exists e, roundtrip16 0.000001 = Some e /\ e <= 1 / 4096).
Proof.
  apply (roundtrip_error_everywhere 0.000001).
  apply open_unit_wide. lra.
Defined.

Lemma decoders_monotone_witness :
  (exists vx vy,
     DF8 (-3) = Fin vx /\ DF8 5 = Fin vy
     /\ 0 < vx <= vy /\ vy < 1 /\ (vx = vy -> (-3)%Z = 5%Z))
  /\ (exists wx wy,
        DF16 (-3) = Fin wx /\ DF16 5 = Fin wy /\ 0 < wx <= wy /\ wy < 1).
Proof.
  split.
  - apply (proj1 (decoders_monotone (-3) 5)); lia.
  - apply (proj2 (decoders_monotone (-3) 5)); lia.
Defined.

Lemma macros_are_unclamped_encoders_witness :
  exists t t',
    EF8 (Fin 0.25) = Some t /\ ef8 (Fin 0.25) = Some (Z.min 127 (Z.max (-127) t))
    /\ EF16 (Fin 0.25) = Some t'
    /\ ef16 (Fin 0.25) = Some (Z.min 32767 (Z.max (-32767) t'))
    /\ (0.00003 <= 0.25 <= 0.99997 ->
        ef8 (Fin 0.25) = EF8 (Fin 0.25) /\ ef16 (Fin 0.25) = EF16 (Fin 0.25)).
Proof.
  apply (macros_are_unclamped_encoders 0.25). apply open_unit_decimal. lra.
Defined.

Lemma encoder_undefined_on_tiny_witness :
  ef8 (Fin (/ 2 ^ 1030)) = None /\ ef16 (Fin (/ 2 ^ 1030)) = None.
Proof.
  apply (encoder_undefined_on_tiny (/ 2 ^ 1030)).
  split.
  - apply Rinv_0_lt_compat, pow_lt. lra.
  - apply Rinv_le_contravar; [apply pow_lt; lra | apply Rle_pow; [lra | lia]].
Defined.

End CodecInstances.

(** ** What validation does not look at, and the doubles it lets through *)

Section OptionsEdges.

Variable N_RF_BOOTSTRAP : Z.
Variable strtod : string -> float.

(** [generations], [em_iterations], [minimum_snps] and
    [reanalyze_reference] are not validated: whatever they hold, negative
    counts included, the trace and the verdict are the same and the values
    come back unchanged. *)
Theorem unchecked_fields_ignored o now g e m r :
  out_trace (verify_options N_RF_BOOTSTRAP strtod (set_unchecked o g e m r) now)
  = out_trace (verify_options N_RF_BOOTSTRAP strtod o now)
  /\ has_exited (verify_options N_RF_BOOTSTRAP strtod (set_unchecked o g e m r) now)
     = has_exited (verify_options N_RF_BOOTSTRAP strtod o now)
  /\ (forall o' tr,
        verify_options N_RF_BOOTSTRAP strtod (set_unchecked o g e m r) now
        = Returned o' tr ->
        generations o' = g /\ em_iterations o' = e
        /\ minimum_snps o' = m /\ reanalyze_reference o' = r).
Proof.
  rewrite !verify_options_eq.
  change (violated N_RF_BOOTSTRAP (set_unchecked o g e m r))
    with (violated N_RF_BOOTSTRAP o).
  change (final_trace N_RF_BOOTSTRAP strtod (set_unchecked o g e m r) now)
    with (final_trace N_RF_BOOTSTRAP strtod o now).
  destruct (violated N_RF_BOOTSTRAP o); repeat split; try discriminate.
  all: inversion H; rewrite final_opts_fields; reflexivity.
Qed.

Lemma is_nan_spec x : is_nan x = true <-> Prim2SF x = S754_nan.
Proof.
  unfold is_nan. rewrite negb_true_iff, FloatAxioms.eqb_spec. unfold SFeqb.
  destruct (Prim2SF x) as [s|s| |s m e] eqn:E.
  - split; discriminate.
  - destruct s; split; discriminate.
  - split; reflexivity.
  - unfold SFcompare. rewrite Z.compare_refl, Pos.compare_cont_refl.
    destruct s; split; discriminate.
Qed.

(** A double passes the two comparisons of the max-missing check exactly
    when it lies in [0, 1] or is a NaN. *)
Lemma unit_or_nan x :
  ((x <? 0.0) || (1.0 <? x))%float = false
  <-> ((0.0 <=? x) && (x <=? 1.0))%float = true \/ is_nan x = true.
Proof.
  rewrite is_nan_spec, !FloatAxioms.ltb_spec, !FloatAxioms.leb_spec.
  change (Prim2SF 0.0) with (S754_zero false).
  change (Prim2SF 1.0) with (S754_finite false 4503599627370496 (-52)).
  unfold SFltb, SFleb.
  destruct (Prim2SF x) as [s|s| |s m e].
  - split; [left; reflexivity | reflexivity].
  - destruct s; cbn; split; try discriminate; try tauto;
      intros [H|H]; discriminate.
  - split; [now right | reflexivity].
  - destruct s.
    + split; [discriminate | intros [H|H]; discriminate].
    + unfold SFcompare. cbn [orb andb].
      rewrite (Z.compare_antisym e (-52)).
      destruct (e ?= -52)%Z; cbn [CompOpp orb andb].
      * replace (Pos.compare_cont Eq 4503599627370496 m)
          with (CompOpp (Pos.compare_cont Eq m 4503599627370496))
          by (apply (Pos.compare_cont_antisym m 4503599627370496 Eq)).
        destruct (Pos.compare_cont Eq m 4503599627370496); cbn [CompOpp];
          split; try discriminate; try tauto; intros [H|H]; discriminate.
      * split; [intros _; left; reflexivity | reflexivity].
      * split; [discriminate | intros [H|H]; discriminate].
Qed.

Lemma checks_missing o :
  In (true, msg_missing) (checks N_RF_BOOTSTRAP o)
  <-> missing_out_of_range o = true.
Proof.
  unfold checks. simpl In. split.
  - intros H.
    do 5 (destruct H as [H|H];
          [exfalso; inversion H as [[Hc Hm]]; revert Hm;
           apply String.eqb_neq; vm_compute; reflexivity|]).
    destruct H as [H|H]; [inversion H; auto|].
    do 7 (destruct H as [H|H];
          [exfalso; inversion H as [[Hc Hm]]; revert Hm;
           apply String.eqb_neq; vm_compute; reflexivity|]).
    destruct H.
  - intros ->. tauto.
Qed.

(** The max-missing diagnostic is withheld exactly for the doubles in
    [0, 1] and for NaN: a NaN frequency passes validation. *)
Theorem max_missing_accepts_unit_and_nan o now :
  ~ In (Eprint msg_missing)
       (out_trace (verify_options N_RF_BOOTSTRAP strtod o now))
  <-> ((0.0 <=? maximum_missing_data_freq o)
       && (maximum_missing_data_freq o <=? 1.0))%float = true
      \/ is_nan (maximum_missing_data_freq o) = true.
Proof.
  rewrite out_trace_print, checks_missing by (apply String.eqb_neq; reflexivity).
  rewrite <- unit_or_nan. unfold missing_out_of_range.
  destruct (_ || _); split; congruence.
Qed.

End OptionsEdges.

Lemma unchecked_fields_ignored_witness :
  generations (final_opts strtod_digits (set_unchecked sample_opts 7 (-1) (-5) 1) 0) = 7
  /\ em_iterations (final_opts strtod_digits (set_unchecked sample_opts 7 (-1) (-5) 1) 0)
     = -1
  /\ minimum_snps (final_opts strtod_digits (set_unchecked sample_opts 7 (-1) (-5) 1) 0)
     = -5
  /\ reanalyze_reference
       (final_opts strtod_digits (set_unchecked sample_opts 7 (-1) (-5) 1) 0) = 1.
Proof.
  apply (proj2 (proj2 (unchecked_fields_ignored 3 strtod_digits sample_opts 0
                         7 (-1) (-5) 1))
           _ (final_trace 3 strtod_digits (set_unchecked sample_opts 7 (-1) (-5) 1) 0)).
  vm_compute. reflexivity.
Defined.
